(** * The Neon Scientific Calculator (src/app.js)

    A shallow embedding of the calculator's engine: [tokenize] (with
    [markUnaryMinus] and [insertImplicitMultiplication]), the shunting-yard
    parser [toRPN2], the postfix evaluator [evalRPN], [factorial] and
    [formatNumber]; and of the state functions around it: [eq], [preview],
    [append], [toggleParen], [addHistory], [extractLastAtom] and
    [escapeHtml].  The properties of the specification follow, then further
    properties of the code.

    JavaScript numbers are IEEE-754 binary64 values: they are modelled by
    Rocq's primitive floats, whose [+ - * /], [sqrt], [abs] and comparisons
    are the IEEE operations.  JavaScript strings are sequences of UTF-16
    code units.  The transcendental functions of [Math], which ECMAScript
    leaves implementation-approximated, are the fields of [NativeMath]. *)

From Stdlib Require Import String Ascii ZArith NArith Bool Lia List Permutation.
From Stdlib Require Import Floats.
Import ListNotations.

Set Warnings "-inexact-float".

(** ** JavaScript strings *)

Module JSString.

(** A string is the list of its UTF-16 code units. *)
Definition t := list N.

(** An ASCII literal, as the string of the same characters. *)
Definition js (s : string) : t :=
  map N_of_ascii (list_ascii_of_string s).

Fixpoint eqb (a b : t) : bool :=
  match a, b with
  | [], [] => true
  | x :: a', y :: b' => N.eqb x y && eqb a' b'
  | _, _ => false
  end.

Fixpoint startsWith (pat s : t) : bool :=
  match pat, s with
  | [], _ => true
  | p :: pat', c :: s' => N.eqb p c && startsWith pat' s'
  | _ :: _, [] => false
  end.

(** [s.replaceAll(pat, rep)] for a non-empty [pat]: the occurrences are
    found left to right and do not overlap.  [skip] counts the code units
    of a match that are still to be dropped. *)
Fixpoint replaceAll_from (skip : nat) (pat rep s : t) : t :=
  match s with
  | [] => []
  | c :: s' =>
      match skip with
      | S k => replaceAll_from k pat rep s'
      | O =>
          if startsWith pat s
          then rep ++ replaceAll_from (Nat.pred (length pat)) pat rep s'
          else c :: replaceAll_from O pat rep s'
      end
  end.

Definition replaceAll (pat rep s : t) : t := replaceAll_from O pat rep s.

(** The class [\s] of a JavaScript regular expression: WhiteSpace and
    LineTerminator code points. *)
Definition isSpace (c : N) : bool :=
  ((9 <=? c) && (c <=? 13) || (c =? 32) || (c =? 160) || (c =? 5760)
   || (8192 <=? c) && (c <=? 8202) || (c =? 8232) || (c =? 8233)
   || (c =? 8239) || (c =? 8287) || (c =? 12288) || (c =? 65279))%N.

(** [s.replace(/\s+/g, "")]. *)
Definition stripSpaces (s : t) : t := filter (fun c => negb (isSpace c)) s.

(** [toLowerCase] on the code units the scanner applies it to; only the
    letters A-Z change among the code units below 128. *)
Definition lowerUnit (c : N) : N :=
  if ((65 <=? c) && (c <=? 90))%N then (c + 32)%N else c.

Definition toLowerCase (s : t) : t := map lowerUnit s.

End JSString.

Abbreviation jsstring := JSString.t.
Abbreviation js := JSString.js.

(** ** JavaScript numbers *)

Module JSNumber.

Open Scope float_scope.

(** The Number value of the decimal [m / 10^k] ([0 <= m], [0 <= k]):
    the nearest binary64 value, ties to even, infinite past the largest
    finite value. *)
Definition ofDecimal (m k : Z) : float :=
  match m with
  | Zpos _ =>
      let '(q, e, l) := SFdiv_core_binary prec emax m 0 (10 ^ k)%Z 0 in
      SF2Prim (binary_round_aux prec emax false q e l)
  | _ => zero
  end.

(** The Number value of the integer [m]. *)
Definition ofZ (m : Z) : float := SF2Prim (binary_normalize prec emax m 0 false).

Definition isDigitUnit (c : N) : bool := ((48 <=? c) && (c <=? 57))%N.

Definition digitValue (c : N) : Z := Z.of_N (c - 48).

(** Digits read left to right, most significant first. *)
Definition digitsValue (ds : list N) : Z :=
  fold_left (fun acc d => (10 * acc + digitValue d)%Z) ds 0%Z.

Fixpoint takeDigits (s : jsstring) : jsstring :=
  match s with
  | c :: s' => if isDigitUnit c then c :: takeDigits s' else []
  | [] => []
  end.

Fixpoint dropDigits (s : jsstring) : jsstring :=
  match s with
  | c :: s' => if isDigitUnit c then dropDigits s' else s
  | [] => []
  end.

(** The value [m * 10^x], rounded to the nearest Number. *)
Definition scaled (m x : Z) : float :=
  if (0 <=? x)%Z then ofDecimal (m * 10 ^ x)%Z 0 else ofDecimal m (- x)%Z.

(** The ExponentPart of a decimal literal: nothing, or [e] or [E], an
    optional sign and at least one digit. *)
Definition exponentPart (s : jsstring) : option Z :=
  match s with
  | [] => Some 0%Z
  | c :: r =>
      if ((c =? 101) || (c =? 69))%N then
        let '(neg, ds) :=
          match r with
          | d :: r' => if (d =? 45)%N then (true, r')
                       else if (d =? 43)%N then (false, r') else (false, r)
          | [] => (false, r)
          end in
        match ds, dropDigits ds with
        | _ :: _, [] => Some (if neg then (- digitsValue ds)%Z else digitsValue ds)
        | _, _ => None
        end
      else None
  end.

(** [Number(s)], the ECMAScript StringToNumber, on the strings this program
    passes to it: the empty string, and an optionally signed decimal
    literal [ddd], [ddd.], [ddd.ddd] or [.ddd] with an optional exponent.
    A string of another form (the lone dot among them) gives NaN. *)
Definition Number (s : jsstring) : float :=
  match s with
  | [] => zero
  | c :: r =>
      let '(neg, body) :=
        if (c =? 45)%N then (true, r)
        else if (c =? 43)%N then (false, r) else (false, s) in
      let ip := takeDigits body in
      let r1 := dropDigits body in
      let '(fp, r2) :=
        match r1 with
        | d :: r' => if (d =? 46)%N then (takeDigits r', dropDigits r') else ([], r1)
        | [] => ([], r1)
        end in
      match ip ++ fp, exponentPart r2 with
      | _ :: _, Some x =>
          let v := scaled (digitsValue (ip ++ fp)) (x - Z.of_nat (length fp)) in
          if neg then - v else v
      | _, _ => nan
      end
  end.

(** [Number.isFinite] on a Number. *)
Definition isFinite (x : float) : bool := is_finite x.

(** [Math.PI] and [Math.E], the Numbers nearest to the two constants
    (3.141592653589793 and 2.718281828459045). *)
Definition Math_PI : float := 0x1.921fb54442d18p+1.
Definition Math_E : float := 0x1.5bf0a8b145769p+1.

Definition Math_abs (x : float) : float := abs x.
Definition Math_sqrt (x : float) : float := sqrt x.

(** [Math.round(x)]: the integral Number closest to [x], the one closer to
    +infinity when two are equally close; [x] itself when it is integral,
    infinite or NaN; -0 when [x] is -0 or lies in [-0.5, 0). *)
Definition Math_round (x : float) : float :=
  match Prim2SF x with
  | S754_finite s m e =>
      match e with
      | Zneg p =>
          let n := (if s then - Zpos m else Zpos m)%Z in
          let r := Z.div (2 * n + 2 ^ Zpos p) (2 ^ (Zpos p + 1)) in
          SF2Prim (binary_normalize prec emax r 0 s)
      | _ => x
      end
  | _ => x
  end.

(** *** Decimal output *)

(** A positive finite Number as the fraction [(num, den)] it is equal to. *)
Definition fraction (x : float) : Z * Z :=
  match Prim2SF x with
  | S754_finite _ m e =>
      match e with
      | Zneg p => (Zpos m, 2 ^ Zpos p)%Z
      | _ => (Zpos m * 2 ^ e, 1)%Z
      end
  | _ => (0, 1)%Z
  end.

(** The least [n >= n0] with [num / den < 10^n], by search. *)
Fixpoint searchUp (fuel : nat) (num den n : Z) : Z :=
  match fuel with
  | O => n
  | S fuel' => if (num <? den * 10 ^ n)%Z then n else searchUp fuel' num den (n + 1)%Z
  end.

(** The least [j >= j0] with [den <= num * 10^j], by search. *)
Fixpoint searchDown (fuel : nat) (num den j : Z) : Z :=
  match fuel with
  | O => j
  | S fuel' => if (den <=? num * 10 ^ j)%Z then j else searchDown fuel' num den (j + 1)%Z
  end.

(** The decimal exponent of [num / den > 0]: the [n] with
    [10^(n-1) <= num / den < 10^n].  A Number lies between [10^-324] and
    [10^309], which bounds both searches. *)
Definition decimalExponent (num den : Z) : Z :=
  if (den <=? num)%Z then searchUp 400 num den 1
  else (1 - searchDown 400 num den 1)%Z.

(** [num / den / 10^scale] as a quotient and a remainder over [d]. *)
Definition shifted (num den scale : Z) : Z * Z * Z :=
  let '(a, d) :=
    if (scale <? 0)%Z then (num * 10 ^ (- scale), den)%Z
    else (num, den * 10 ^ scale)%Z in
  (a / d, a mod d, d)%Z.

(** The [k] decimal digits of [s], most significant first. *)
Fixpoint digitsOf (k : nat) (s : Z) : jsstring :=
  match k with
  | O => []
  | S k' => digitsOf k' (s / 10) ++ [Z.to_N (48 + s mod 10)]
  end.

Fixpoint countDigits (fuel : nat) (s : Z) : nat :=
  match fuel with
  | O => 1
  | S fuel' => if (s <? 10)%Z then 1 else S (countDigits fuel' (s / 10))
  end.

(** The decimal digits of the integer [0 <= s < 10^25]. *)
Definition integerDigits (s : Z) : jsstring := digitsOf (countDigits 24 s) s.

Definition zeros (n : nat) : jsstring := repeat 48%N n.

(** The exponent suffix [e+x] or [e-x]. *)
Definition exponentSuffix (x : Z) : jsstring :=
  [101%N; if (x <? 0)%Z then 45%N else 43%N] ++ integerDigits (Z.abs x).

(** For a positive finite [x] and a digit count [k]: the [k]-digit
    integers [s] next to [x / 10^(n-k)] whose decimal [s * 10^(n-k)] reads
    back as [x], the nearer one first (the even one on a tie). *)
Definition roundTrips (x : float) (n : Z) (k : nat) : list Z :=
  let '(num, den) := fraction x in
  let scale := (n - Z.of_nat k)%Z in
  let '(lo, r, d) := shifted num den scale in
  let hi := (lo + 1)%Z in
  let ok s := (scaled s scale =? x)%float in
  let loFirst :=
    match (2 * r ?= d)%Z with
    | Lt => true
    | Gt => false
    | Eq => Z.even lo
    end in
  filter ok (if loFirst then [lo; hi] else [hi; lo]).

(** The shortest digits of a positive finite [x]: [(n, k, s)] with [k] as
    small as possible such that [s * 10^(n-k)] reads back as [x].
    Seventeen digits always do. *)
Fixpoint shortest (fuel : nat) (x : float) (n : Z) (k : nat) : Z * nat * Z :=
  match roundTrips x n k, fuel with
  | s :: _, _ =>
      if (s =? 10 ^ Z.of_nat k)%Z then ((n + 1)%Z, k, (10 ^ (Z.of_nat k - 1))%Z)
      else (n, k, s)
  | [], S fuel' => shortest fuel' x n (S k)
  | [], O => (n, k, 0%Z)
  end.

(** [Number::toString(x)] in radix 10, for a positive finite [x]. *)
Definition positiveToString (x : float) : jsstring :=
  let '(num, den) := fraction x in
  let '(n, k, s) := shortest 17 x (decimalExponent num den) 1 in
  let ds := digitsOf k s in
  let kz := Z.of_nat k in
  if ((kz <=? n) && (n <=? 21))%Z then ds ++ zeros (Z.to_nat (n - kz))
  else if ((0 <? n) && (n <=? 21))%Z then
    firstn (Z.to_nat n) ds ++ [46%N] ++ skipn (Z.to_nat n) ds
  else if ((-6 <? n) && (n <=? 0))%Z then
    [48%N; 46%N] ++ zeros (Z.to_nat (- n)) ++ ds
  else
    match ds with
    | [d] => [d] ++ exponentSuffix (n - 1)
    | d :: ds' => [d; 46%N] ++ ds' ++ exponentSuffix (n - 1)
    | [] => []
    end.

(** [Number::toString(x)], radix 10. *)
Definition toString (x : float) : jsstring :=
  if is_nan x then js "NaN"
  else if is_zero x then js "0"
  else if (x <? 0)%float then
    if is_infinity x then js "-Infinity" else 45%N :: positiveToString (- x)
  else if is_infinity x then js "Infinity"
  else positiveToString x.

(** [x.toPrecision(p)] for a finite [x] and [1 <= p <= 100]. *)
Definition toPrecision (x : float) (p : nat) : jsstring :=
  let sign := if (x <? 0)%float then [45%N] else [] in
  let x := if (x <? 0)%float then (- x)%float else x in
  let pz := Z.of_nat p in
  let '(m, e) :=
    if is_zero x then (zeros p, 0%Z)
    else
      let '(num, den) := fraction x in
      let e := (decimalExponent num den - 1)%Z in
      let '(lo, r, d) := shifted num den (e - pz + 1) in
      let n := if (2 * r <? d)%Z then lo else (lo + 1)%Z in
      if (n =? 10 ^ pz)%Z then (digitsOf p (10 ^ (pz - 1)), (e + 1)%Z)
      else (digitsOf p n, e) in
  if ((e <? -6) || (pz <=? e))%Z then
    let m := match m with
             | d :: (_ :: _) as ds => d :: 46%N :: ds
             | _ => m
             end in
    sign ++ m ++ exponentSuffix e
  else if (e =? pz - 1)%Z then sign ++ m
  else if (0 <=? e)%Z then
    sign ++ firstn (Z.to_nat (e + 1)) m ++ [46%N] ++ skipn (Z.to_nat (e + 1)) m
  else sign ++ [48%N; 46%N] ++ zeros (Z.to_nat (- (e + 1))) ++ m.

End JSNumber.

(** ** Results of code that can throw *)

(** The errors the engine throws, one constructor per message:
    ["Invalid number"], ["Unknown identifier: " + id], ["Unexpected char: " + c],
    ["Mismatched parentheses"], ["Bad expression"], ["Bad function"] and
    ["Unknown token type"].  The remaining [throw] statements of the source
    (["Unexpected token"], ["Unknown op"], ["Unknown function: ..."]) guard
    against token kinds, operators and function names outside the
    vocabulary of [token] and have no counterpart here. *)
Inductive error : Type :=
| InvalidNumber
| UnknownIdentifier (id : jsstring)
| UnexpectedChar (c : N)
| MismatchedParentheses
| BadExpression
| BadFunction
| UnknownTokenType.

Inductive result (A : Type) : Type :=
| Ok (a : A)
| Throw (e : error).

Arguments Ok {A} a.
Arguments Throw {A} e.

Definition bind {A B : Type} (r : result A) (k : A -> result B) : result B :=
  match r with
  | Ok a => k a
  | Throw e => Throw e
  end.

Notation "x <- c1 ;; c2" := (bind c1 (fun x => c2))
  (at level 61, c1 at next level, right associativity).
Notation "' pat <- c1 ;; c2" := (bind c1 (fun x => match x with pat => c2 end))
  (at level 61, pat pattern, c1 at next level, right associativity).

(** ** Tokens *)

(** The operator symbols ["+"], ["-"], ["*"], ["/"], ["^"], ["%"] and
    ["u-"] (unary minus). *)
Inductive opsym : Type := Plus | Minus | Times | Slash | Caret | Percent | UMinus.

(** The function names ["sin"], ..., ["inv"], and ["fact"], the postfix
    factorial written [!]. *)
Inductive fname : Type :=
| Sin | Cos | Tan | Asin | Acos | Atan | Log | Ln | Sqrt | Inv | Fact.

(** The constants ["pi"], ["e"] and ["ans"]. *)
Inductive cname : Type := Pi | E | Ans.

(** A token [{type, value}]: [type] is the constructor.  [paren true] is
    ["("], [paren false] is [")"]. *)
Inductive token : Type :=
| num (value : float)
| op (value : opsym)
| paren (opening : bool)
| fn (value : fname)
| const (value : cname).

(** ** Session state *)

Inductive angleMode : Type := DEG | RAD.

(** The fields of the module-level [state] that the engine reads. *)
Record State : Type := { state_ans : float; state_mode : angleMode }.

(** The functions of [Math] whose results ECMAScript leaves to the
    implementation. *)
Class NativeMath : Type := {
  Math_sin : float -> float;
  Math_cos : float -> float;
  Math_tan : float -> float;
  Math_asin : float -> float;
  Math_acos : float -> float;
  Math_atan : float -> float;
  Math_log10 : float -> float;
  Math_log : float -> float;
  Math_pow : float -> float -> float
}.

Import JSNumber.
Open Scope float_scope.

(** ** Utilities *)

Definition isDigit (ch : N) : bool := ((48 <=? ch) && (ch <=? 57))%N.

Definition degToRad (x : float) : float := x * Math_PI / 180.
Definition radToDeg (x : float) : float := x * 180 / Math_PI.

(** The loop [for (let i=2;i<=n;i++) r *= i] of [factorial].  It runs only
    for [n <= 170], so 169 rounds of [fuel] are enough. *)
Fixpoint factorial_loop (fuel : nat) (i r n : float) : float :=
  match fuel with
  | O => r
  | S fuel' => if i <=? n then factorial_loop fuel' (i + 1) (r * i) n else r
  end.

Definition factorial (n : float) : float :=
  if negb (isFinite n) then nan
  else if n <? 0 then nan
  else if 0x1.19799812dea11p-40 <? Math_abs (n - Math_round n) then nan
  else
    let n := Math_round n in
    if 170 <? n then infinity
    else factorial_loop 169 2 1 n.

(** [Object.is(n, -0)] on a Number. *)
Definition isNegativeZero (n : float) : bool := is_zero n && get_sign n.

(** The returned string is the literal ["Error"] or the decimal string of a
    Number. *)
Definition formatNumber (n : float) : jsstring :=
  if negb (isFinite n) then js "Error"
  else
    let n := if isNegativeZero n then 0 else n in
    let s := toString (Number (toPrecision n 12)) in
    s.

(** ** Tokenizer *)

Definition normalizeInput (raw : jsstring) : jsstring :=
  JSString.replaceAll (js "Ans") (js "ans")
    (JSString.replaceAll [960%N] (js "pi")
       (JSString.replaceAll [8722%N] (js "-")
          (JSString.replaceAll [247%N] (js "/")
             (JSString.replaceAll [215%N] (js "*") raw)))).

Definition isAlpha (c : N) : bool :=
  ((97 <=? c) && (c <=? 122) || (65 <=? c) && (c <=? 90))%N.

Definition isDot (c : N) : bool := (c =? 46)%N.

(** The inner loop of the number scanner: [j] advances over digits and
    dots and stops in front of a second dot.  Returns [s.slice(i, j)], for
    [s] the input from [i] on. *)
Fixpoint scanNumber (dot : nat) (s : jsstring) : jsstring :=
  match s with
  | c :: s' =>
      if isDigit c || isDot c then
        let dot := if isDot c then S dot else dot in
        if (1 <? dot)%nat then [] else c :: scanNumber dot s'
      else []
  | [] => []
  end.

(** The inner loop of the identifier scanner: [s.slice(i, j)]. *)
Fixpoint scanAlpha (s : jsstring) : jsstring :=
  match s with
  | c :: s' => if isAlpha c then c :: scanAlpha s' else []
  | [] => []
  end.

Definition functionNames : list (jsstring * fname) :=
  [ (js "sin", Sin); (js "cos", Cos); (js "tan", Tan); (js "asin", Asin);
    (js "acos", Acos); (js "atan", Atan); (js "log", Log); (js "ln", Ln);
    (js "sqrt", Sqrt); (js "inv", Inv) ].

Fixpoint lookupName {A : Type} (id : jsstring) (names : list (jsstring * A)) : option A :=
  match names with
  | (name, a) :: names' => if JSString.eqb id name then Some a else lookupName id names'
  | [] => None
  end.

Definition identifier (id : jsstring) : result token :=
  if JSString.eqb id (js "pi") then Ok (const Pi)
  else if JSString.eqb id (js "e") then Ok (const E)
  else if JSString.eqb id (js "ans") then Ok (const Ans)
  else match lookupName id functionNames with
       | Some f => Ok (fn f)
       | None => Throw (UnknownIdentifier id)
       end.

Definition operatorOf (c : N) : option opsym :=
  if (c =? 43)%N then Some Plus
  else if (c =? 45)%N then Some Minus
  else if (c =? 42)%N then Some Times
  else if (c =? 47)%N then Some Slash
  else if (c =? 94)%N then Some Caret
  else if (c =? 37)%N then Some Percent
  else None.

(** The scanning loop [while (i < s.length)] of [tokenize], on the input
    from [i] on.  A number or an identifier moves [i] to the end [j] of its
    slice: [skip] is the count of code units of the slice still to be
    passed over before the next round. *)
Fixpoint scan (skip : nat) (s : jsstring) (out : list token) : result (list token) :=
  match s with
  | [] => Ok out
  | c :: s' =>
      match skip with
      | S k => scan k s' out
      | O =>
          if isDigit c || isDot c then
            let numStr := scanNumber 0 s in
            let n := Number numStr in
            if negb (isFinite n) then Throw InvalidNumber
            else scan (Nat.pred (length numStr)) s' (out ++ [num n])
          else if ((c =? 40) || (c =? 41))%N then scan 0 s' (out ++ [paren (c =? 40)%N])
          else match operatorOf c with
          | Some o => scan 0 s' (out ++ [op o])
          | None =>
              if isAlpha c then
                let id := scanAlpha s in
                t <- identifier (JSString.toLowerCase id) ;;
                scan (Nat.pred (length id)) s' (out ++ [t])
              else if (c =? 33)%N then scan 0 s' (out ++ [fn Fact])
              else Throw (UnexpectedChar c)
          end
      end
  end.

(** [out[out.length - 1]], [undefined] on the empty array. *)
Definition lastOf (out : list token) : option token := last (map Some out) None.

Definition markUnaryMinus (tokens : list token) : list token :=
  fold_left
    (fun out t =>
       match t with
       | op Minus =>
           match lastOf out with
           | None | Some (op _) | Some (paren true) => out ++ [op UMinus]
           | Some _ => out ++ [t]
           end
       | _ => out ++ [t]
       end)
    tokens [].

Definition canLeft (t : option token) : bool :=
  match t with
  | Some (num _) | Some (const _) | Some (paren false) => true
  | _ => false
  end.

Definition canRight (t : option token) : bool :=
  match t with
  | Some (num _) | Some (const _) | Some (fn _) | Some (paren true) => true
  | _ => false
  end.

(** The round of the loop of [insertImplicitMultiplication] on the token
    [cur]. *)
Definition insertRound (out : list token) (cur : token) : list token :=
  let prev := lastOf out in
  let out :=
    if canLeft prev && canRight (Some cur) then
      match prev, cur with
      | Some (fn _), paren true => out
      | _, _ => out ++ [op Times]
      end
    else out in
  out ++ [cur].

Definition insertImplicitMultiplication (tokens : list token) : list token :=
  fold_left insertRound tokens [].

Definition tokenize (input : jsstring) : result (list token) :=
  let s := JSString.stripSpaces (normalizeInput input) in
  out <- scan 0 s [] ;;
  Ok (insertImplicitMultiplication (markUnaryMinus out)).

(** ** Shunting-yard to RPN *)

Inductive associativity : Type := L | R.

Record opInfo : Type := { prec : nat; assoc : associativity; arity : nat }.

Definition OP (o : opsym) : opInfo :=
  match o with
  | Plus => {| prec := 1; assoc := L; arity := 2 |}
  | Minus => {| prec := 1; assoc := L; arity := 2 |}
  | Times => {| prec := 2; assoc := L; arity := 2 |}
  | Slash => {| prec := 2; assoc := L; arity := 2 |}
  | Percent => {| prec := 2; assoc := L; arity := 2 |}
  | Caret => {| prec := 4; assoc := R; arity := 2 |}
  | UMinus => {| prec := 3; assoc := R; arity := 1 |}
  end.

(** The test of the operator loop, for the incoming operator [t] and the
    operator [top] on the stack ([a = OP[t.value]], [b = OP[top.value]]). *)
Definition popsOperator (t top : opsym) : bool :=
  let a := OP t in
  let b := OP top in
  match assoc a with
  | L => (prec a <=? prec b)%nat
  | R => (prec a <? prec b)%nat
  end.

(** The loop [while (stack.length)] run for an operator [t].  The stack is
    a list whose head is the top [stack[stack.length-1]]. *)
Fixpoint popOperators (t : opsym) (output stack : list token) : list token * list token :=
  match stack with
  | op top :: stack' =>
      if popsOperator t top then popOperators t (output ++ [op top]) stack'
      else (output, stack)
  | fn f :: stack' => popOperators t (output ++ [fn f]) stack'
  | _ => (output, stack)
  end.

(** The loop run for [")"]: pop to the output up to an ["("]. *)
Fixpoint popToOpen (output stack : list token) : list token * list token :=
  match stack with
  | [] => (output, [])
  | paren true :: _ => (output, stack)
  | t :: stack' => popToOpen (output ++ [t]) stack'
  end.

(** One round of the [for] loop of [toRPN2] on the token [t]. *)
Definition shunt (t : token) (output stack : list token) : result (list token * list token) :=
  match t with
  | num _ | const _ => Ok (output ++ [t], stack)
  | fn Fact => Ok (output ++ [fn Fact], stack)
  | fn _ => Ok (output, t :: stack)
  | op o =>
      let '(output, stack) := popOperators o output stack in
      Ok (output, t :: stack)
  | paren true => Ok (output, t :: stack)
  | paren false =>
      let '(output, stack) := popToOpen output stack in
      match stack with
      | [] => Throw MismatchedParentheses
      | _ :: stack =>
          match stack with
          | fn f :: stack' => Ok (output ++ [fn f], stack')
          | _ => Ok (output, stack)
          end
      end
  end.

(** The final loop [while (stack.length)] of [toRPN2]. *)
Fixpoint drain (output stack : list token) : result (list token) :=
  match stack with
  | [] => Ok output
  | paren _ :: _ => Throw MismatchedParentheses
  | t :: stack' => drain (output ++ [t]) stack'
  end.

(** The loop [for (let i=0;i<tokens.length;i++)] of [toRPN2], from the
    state [(output, stack)]. *)
Fixpoint shuntAll (tokens output stack : list token) : result (list token * list token) :=
  match tokens with
  | [] => Ok (output, stack)
  | t :: tokens' =>
      '(output, stack) <- shunt t output stack ;;
      shuntAll tokens' output stack
  end.

Definition toRPN2 (tokens : list token) : result (list token) :=
  '(output, stack) <- shuntAll tokens [] [] ;;
  drain output stack.

(** ** RPN evaluation *)

Section Evaluate.

Context {M : NativeMath}.

(** The module-level [state], of which [evalRPN] reads [ans] and [mode]. *)
Variable state : State.

Definition constant (c : cname) : float :=
  match c with
  | Pi => Math_PI
  | E => Math_E
  | Ans => state_ans state
  end.

(** The chain [if (t.value === "+") ... else if (t.value === "%")] on the
    operands [a] and [b]. *)
Definition binary (o : opsym) (a b : float) : float :=
  match o with
  | Plus => a + b
  | Minus => a - b
  | Times => a * b
  | Slash => a / b
  | Caret => Math_pow a b
  | Percent => a * (b / 100)
  | UMinus => - a
  end.

Definition trigIn (x : float) : float :=
  match state_mode state with DEG => degToRad x | RAD => x end.

Definition trigOut (x : float) : float :=
  match state_mode state with DEG => radToDeg x | RAD => x end.

(** The [switch (t.value)] on the operand [a]. *)
Definition call (f : fname) (a : float) : float :=
  match f with
  | Sin => Math_sin (trigIn a)
  | Cos => Math_cos (trigIn a)
  | Tan => Math_tan (trigIn a)
  | Asin => trigOut (Math_asin a)
  | Acos => trigOut (Math_acos a)
  | Atan => trigOut (Math_atan a)
  | Log => Math_log10 a
  | Ln => Math_log a
  | Sqrt => Math_sqrt a
  | Inv => 1 / a
  | Fact => factorial a
  end.

(** One round of the loop [for (const t of rpn)].  The value stack [st]
    is a list whose head is the top.  The length tests come first, as in
    the source; the branches they exclude throw the same error. *)
Definition evalToken (t : token) (st : list float) : result (list float) :=
  match t with
  | num value => Ok (value :: st)
  | const c => Ok (constant c :: st)
  | op o =>
      if (length st <? arity (OP o))%nat then Throw BadExpression
      else
        match o, st with
        | UMinus, a :: st' => Ok (- a :: st')
        | _, b :: a :: st' => Ok (binary o a b :: st')
        | _, _ => Throw BadExpression
        end
  | fn f =>
      if (length st <? 1)%nat then Throw BadFunction
      else
        match st with
        | a :: st' => Ok (call f a :: st')
        | [] => Throw BadFunction
        end
  | paren _ => Throw UnknownTokenType
  end.

Fixpoint evalRPN_from (rpn : list token) (st : list float) : result float :=
  match rpn with
  | t :: rpn' => st' <- evalToken t st ;; evalRPN_from rpn' st'
  | [] =>
      match st with
      | [v] => Ok v
      | _ => Throw BadExpression
      end
  end.

Definition evalRPN (rpn : list token) : result float := evalRPN_from rpn [].

Definition evaluateExpression (raw : jsstring) : result float :=
  tokens <- tokenize raw ;;
  rpn <- toRPN2 tokens ;;
  evalRPN rpn.

End Evaluate.


(** ** Expression builder, session and history *)

(** [escapeHtml(s)]. *)
Definition escapeHtml (s : jsstring) : jsstring :=
  JSString.replaceAll (js ">") (js "&gt;")
    (JSString.replaceAll (js "<") (js "&lt;")
       (JSString.replaceAll (js "&") (js "&amp;") s)).


(** The module-level [state]. *)
Record AppState : Type := {
  expr : jsstring;
  ans : float;
  mode : angleMode;
  second : bool;
  history : list (jsstring * jsstring)
}.

(** The text contents of the elements [exprEl], [resultEl], [hintEl] and
    [ansPill]. *)
Record Display : Type := {
  exprText : jsstring;
  resultText : jsstring;
  hintText : jsstring;
  ansPillText : jsstring
}.

(** What the engine reads of the state. *)
Definition engineState (st : AppState) : State :=
  {| state_ans := ans st; state_mode := mode st |}.

Definition setHint (text : jsstring) (d : Display) : Display :=
  {| exprText := exprText d; resultText := resultText d;
     hintText := text; ansPillText := ansPillText d |}.

Definition setResult (text : jsstring) (d : Display) : Display :=
  {| exprText := exprText d; resultText := text;
     hintText := hintText d; ansPillText := ansPillText d |}.

Definition setAnsPill (text : jsstring) (d : Display) : Display :=
  {| exprText := exprText d; resultText := resultText d;
     hintText := hintText d; ansPillText := text |}.

Definition setExpr (text : jsstring) (sd : AppState * Display) : AppState * Display :=
  let '(st, d) := sd in
  ({| expr := text; ans := ans st; mode := mode st; second := second st;
      history := history st |},
   {| exprText := text; resultText := resultText d;
      hintText := hintText d; ansPillText := ansPillText d |}).

Fixpoint dropSpaces (s : jsstring) : jsstring :=
  match s with
  | c :: s' => if JSString.isSpace c then dropSpaces s' else s
  | [] => []
  end.

(** [s.trim()]. *)
Definition trim (s : jsstring) : jsstring := rev (dropSpaces (rev (dropSpaces s))).

(** [text.includes(c)] for a code unit [c]. *)
Definition includes (text : jsstring) (c : N) : bool := existsb (N.eqb c) text.

(** The hints "expression not valid" and "computed", in Thai. *)
Definition hintInvalid : jsstring :=
  [3609; 3636; 3614; 3592; 3609; 3660; 3652; 3617; 3656; 3606; 3641; 3585;
   3605; 3657; 3629; 3591]%N.

Definition hintComputed : jsstring :=
  [3588; 3635; 3609; 3623; 3603; 3649; 3621; 3657; 3623]%N.

(** The state part of [addHistory]: the entry goes to the front, and the
    last entry goes when there are more than 18. *)
Definition addHistory (st : AppState) (e result : jsstring) : AppState :=
  let h := (e, result) :: history st in
  {| expr := expr st; ans := ans st; mode := mode st; second := second st;
     history := if (18 <? length h)%nat then removelast h else h |}.

Section Session.

Context {M : NativeMath}.

Definition preview (st : AppState) (d : Display) : Display :=
  let s := trim (expr st) in
  match rev s with
  | [] => setResult (js "0") d
  | last :: _ =>
      if includes [43; 45; 215; 247; 94; 37; 40]%N last then d
      else
        match evaluateExpression (engineState st) s with
        | Ok val =>
            let out := formatNumber val in
            if negb (JSString.eqb out (js "Error")) then setResult out d else d
        | Throw _ => d
        end
  end.

Definition append (text : jsstring) (sd : AppState * Display) : AppState * Display :=
  let '(st, d) := setExpr (expr (fst sd) ++ text) sd in
  (st, preview st d).

(** The function [eq] of the source, run by the [=] key ([eq] is Rocq's
    equality). *)
Definition equals (sd : AppState * Display) : AppState * Display :=
  let '(st, d) := sd in
  match trim (expr st) with
  | [] => (st, setResult (js "0") d)
  | _ :: _ =>
      match evaluateExpression (engineState st) (expr st) with
      | Ok val =>
          let out := formatNumber val in
          let '(st, d) :=
            if negb (JSString.eqb out (js "Error")) then
              let st := {| expr := expr st; ans := val; mode := mode st;
                           second := second st; history := history st |} in
              (addHistory st (expr st) out,
               setAnsPill (js "Ans: " ++ formatNumber val) d)
            else (st, d) in
          (st, setHint (if JSString.eqb out (js "Error") then hintInvalid else hintComputed)
                 (setResult out d))
      | Throw _ => (st, setHint hintInvalid (setResult (js "Error") d))
      end
  end.

Definition toggleParen (sd : AppState * Display) : AppState * Display :=
  let s := expr (fst sd) in
  let opens := count_occ N.eq_dec s 40%N in
  let closes := count_occ N.eq_dec s 41%N in
  let last := hd_error (rev (trim s)) in
  let closing :=
    match last with
    | Some c => (closes <? opens)%nat
                && negb (includes [40; 41; 43; 45; 215; 247; 94]%N c)
                && negb (c =? 40)%N
    | None => false
    end in
  if closing then append (js ")") sd
  else
    match rev s with
    | c :: _ =>
        if isDigit c || includes [41; 93; 101; 960]%N c
        then append [215; 40]%N sd
        else append (js "(") sd
    | [] => append (js "(") sd
    end.

End Session.

(** [s[i]], [undefined] off the string. *)
Definition charAt (s : jsstring) (i : Z) : option N :=
  if (i <? 0)%Z then None else nth_error s (Z.to_nat i).

(** The loop [while (i>=0 && s[i]===" ") i--] of [extractLastAtom]; it
    makes at most [s.length] rounds. *)
Fixpoint skipBlanksBack (fuel : nat) (s : jsstring) (i : Z) : Z :=
  match fuel with
  | O => i
  | S fuel' =>
      match charAt s i with
      | Some c => if (c =? 32)%N then skipBlanksBack fuel' s (i - 1) else i
      | None => i
      end
  end.

(** The loop [for (let j=i; j>=0; j--)] that looks for the open-paren
    matching the close-paren at [i]: the index found, if any. *)
Fixpoint findOpen (fuel : nat) (s : jsstring) (j depth : Z) : option Z :=
  match fuel with
  | O => None
  | S fuel' =>
      match charAt s j with
      | None => None
      | Some c =>
          if (c =? 41)%N then findOpen fuel' s (j - 1) (depth + 1)
          else if (c =? 40)%N then
            if (depth - 1 =? 0)%Z then Some j
            else findOpen fuel' s (j - 1) (depth - 1)
          else findOpen fuel' s (j - 1) depth
      end
  end.

(** The loop [while (j>=0 && /[0-9.]/.test(s[j])) j--]. *)
Fixpoint skipNumberBack (fuel : nat) (s : jsstring) (j : Z) : Z :=
  match fuel with
  | O => j
  | S fuel' =>
      match charAt s j with
      | Some c => if isDigit c || isDot c then skipNumberBack fuel' s (j - 1) else j
      | None => j
      end
  end.

(** [s.endsWith(t)]. *)
Definition endsWith (s t : jsstring) : bool := JSString.startsWith (rev t) (rev s).

(** [extractLastAtom(s)]: the indices [{start, end}] of the last number,
    constant or parenthesised group of [s], or [null]. *)
Definition extractLastAtom (s : jsstring) : option (Z * Z) :=
  let len := Z.of_nat (length s) in
  let i := skipBlanksBack (S (length s)) s (len - 1) in
  if (i <? 0)%Z then None
  else
    match charAt s i with
    | Some 41%N =>
        match findOpen (S (length s)) s i 0 with
        | Some j => Some (j, i)
        | None => None
        end
    | _ =>
        let j := skipNumberBack (S (length s)) s i in
        if negb (j =? i)%Z then Some ((j + 1)%Z, i)
        else if endsWith s (js "Ans") then Some ((len - 3)%Z, (len - 1)%Z)
        else if endsWith s [960%N] then Some ((len - 1)%Z, (len - 1)%Z)
        else if endsWith s (js "e") then Some ((len - 1)%Z, (len - 1)%Z)
        else None
    end.


(** ** Notions of the specification *)

(** The number of values a postfix token takes from the stack: the arity
    of an operator, one for a function, none for a number or a constant. *)
Definition operands (t : token) : nat :=
  match t with
  | op o => arity (OP o)
  | fn _ => 1
  | _ => 0
  end.

Definition isParen (t : token) : bool :=
  match t with
  | paren _ => true
  | _ => false
  end.

(** The stack discipline of a postfix sequence read from the depth
    [depth]: no token takes more values than the stack holds (the depth
    never goes negative), no token is a parenthesis, and the depth at the
    end is exactly 1. *)
Fixpoint stackDepths (rpn : list token) (depth : nat) : bool :=
  match rpn with
  | [] => (depth =? 1)%nat
  | t :: rpn' =>
      negb (isParen t) && (operands t <=? depth)%nat
      && stackDepths rpn' (depth - operands t + 1)
  end.

(** The parenthesis mismatches of a token sequence, as the parser meets
    them: a close-paren read while no open-paren is on the stack, or an
    open-paren left on the stack at the end of the input. *)
Inductive mismatched (tokens : list token) : Prop :=
| closeWithoutOpen (pre post output stack : list token) :
    tokens = pre ++ paren false :: post ->
    shuntAll pre [] [] = Ok (output, stack) ->
    ~ In (paren true) stack ->
    mismatched tokens
| openAtEnd (output stack : list token) :
    shuntAll tokens [] [] = Ok (output, stack) ->
    In (paren true) stack ->
    mismatched tokens.

(** Implicit multiplication in the words of the specification: token [A]
    is a Number, a Constant or a close-paren, and token [B] is a Number, a
    Constant, a Function or an open-paren. *)
Definition leftOperand (A : token) : bool :=
  match A with
  | num _ | const _ | paren false => true
  | _ => false
  end.

Definition rightOperand (B : token) : bool :=
  match B with
  | num _ | const _ | fn _ | paren true => true
  | _ => false
  end.

(** The sequence with a synthetic [*] between the adjacent tokens [A], [B]
    exactly when [leftOperand A] and [rightOperand B]. *)
Fixpoint timesBetween (tokens : list token) : list token :=
  match tokens with
  | A :: (B :: _) as rest =>
      if leftOperand A && rightOperand B then A :: op Times :: timesBetween rest
      else A :: timesBetween rest
  | _ => tokens
  end.

(** A token sequence in which [^] is immediately followed by a unary
    minus. *)
Definition caretThenUMinus (tokens : list token) : Prop :=
  exists pre post, tokens = pre ++ op Caret :: op UMinus :: post.

(** The power [x^n] for a natural number [n], by repeated multiplication. *)
Fixpoint powNat (x : float) (n : nat) : float :=
  match n with
  | O => 1
  | S n' => x * powNat x n'
  end.

(** A native library to meet the assumptions made on [Math] below: [pow]
    is exact on the exponents 0 to 3 and every other result is NaN. *)
Definition sampleMath : NativeMath := {|
  Math_sin := fun _ => nan;
  Math_cos := fun _ => nan;
  Math_tan := fun _ => nan;
  Math_asin := fun _ => nan;
  Math_acos := fun _ => nan;
  Math_atan := fun _ => nan;
  Math_log10 := fun _ => nan;
  Math_log := fun _ => nan;
  Math_pow := fun x y =>
    if y =? 0 then 1 else if y =? 1 then powNat x 1
    else if y =? 2 then powNat x 2 else if y =? 3 then powNat x 3 else nan
|}.

Definition sampleState : State := {| state_ans := 0; state_mode := DEG |}.

(** A session on the expression "1+1", for the same purpose. *)
Definition sampleApp : AppState :=
  {| expr := js "1+1"; ans := 0; mode := DEG; second := false; history := [] |}.

Definition sampleDisplay : Display :=
  {| exprText := js "1+1"; resultText := js "0"; hintText := [];
     ansPillText := js "Ans: 0" |}.

(** The parser state: no parenthesis in the output, no close-paren on the
    stack. *)
Definition parserState (output stack : list token) : Prop :=
  Forall (fun t => isParen t = false) output /\ ~ In (paren false) stack.

(** A value token: a number or a constant. *)
Definition isValue (t : token) : bool :=
  match t with
  | num _ | const _ => true
  | _ => false
  end.

(** The first code unit of a string, 0 for the empty string. *)
Definition firstUnit (s : jsstring) : N := hd 0%N s.

(** The number of open-parens of a token list. *)
Fixpoint opens (tokens : list token) : nat :=
  match tokens with
  | paren true :: r => S (opens r)
  | _ :: r => opens r
  | [] => 0
  end.

(** Balanced parentheses, read left to right from the nesting depth
    [depth]: no close-paren at depth 0, and depth 0 at the end. *)
Fixpoint balancedFrom (depth : nat) (tokens : list token) : bool :=
  match tokens with
  | [] => (depth =? 0)%nat
  | paren true :: r => balancedFrom (S depth) r
  | paren false :: r =>
      match depth with
      | O => false
      | S d => balancedFrom d r
      end
  | _ :: r => balancedFrom depth r
  end.

(** The tokens other than parentheses. *)
Definition withoutParens (tokens : list token) : list token :=
  filter (fun t => negb (isParen t)) tokens.

(** The value tokens, in their order. *)
Definition values (tokens : list token) : list token := filter isValue tokens.

Section EvaluatorRuns.

Context {M : NativeMath}.
Variable state : State.

(** The value stack after the tokens of [rpn], from the stack [st]. *)
Fixpoint evalTokens (rpn : list token) (st : list float) : result (list float) :=
  match rpn with
  | [] => Ok st
  | t :: rpn' => st' <- evalToken state t st ;; evalTokens rpn' st'
  end.

End EvaluatorRuns.

(** A token whose value depends on the angle mode. *)
Definition usesAngleMode (t : token) : bool :=
  match t with
  | fn Sin | fn Cos | fn Tan | fn Asin | fn Acos | fn Atan => true
  | _ => false
  end.

(** A token whose value depends on the last answer. *)
Definition usesAns (t : token) : bool :=
  match t with
  | const Ans => true
  | _ => false
  end.

(** A place where an operand is expected: the start of the input, after an
    operator, after an open-paren. *)
Definition operandExpected (prev : option token) : bool :=
  match prev with
  | None | Some (op _) | Some (paren true) => true
  | Some _ => false
  end.

(** The unary-minus pass, token by token, with the token before. *)
Fixpoint markFrom (prev : option token) (tokens : list token) : list token :=
  match tokens with
  | [] => []
  | t :: rest =>
      let t' :=
        match t with
        | op Minus => if operandExpected prev then op UMinus else t
        | _ => t
        end in
      t' :: markFrom (Some t') rest
  end.

(** No binary minus stands where an operand is expected. *)
Fixpoint minusPlaced (prev : option token) (tokens : list token) : bool :=
  match tokens with
  | [] => true
  | t :: rest =>
      match t with
      | op Minus => negb (operandExpected prev)
      | _ => true
      end && minusPlaced (Some t) rest
  end.

(** No left operand is directly followed by a right operand. *)
Fixpoint operandsApart (tokens : list token) : bool :=
  match tokens with
  | A :: (B :: _) as rest => negb (leftOperand A && rightOperand B) && operandsApart rest
  | _ => true
  end.

(** A number token holds a finite value. *)
Definition finiteNumber (t : token) : Prop :=
  match t with
  | num v => isFinite v = true
  | _ => True
  end.

(** The round of the loop of [markUnaryMinus] on the token [t]. *)
Definition markRound (out : list token) (t : token) : list token :=
  match t with
  | op Minus =>
      match lastOf out with
      | None | Some (op _) | Some (paren true) => out ++ [op UMinus]
      | Some _ => out ++ [t]
      end
  | _ => out ++ [t]
  end.

(** The end of an operand: a number, a constant or a close-paren. *)
Definition operandEnd (prev : option token) : bool :=
  match prev with
  | Some (num _) | Some (const _) | Some (paren false) => true
  | _ => false
  end.

(** An operand may start after [prev]: where an operand is expected, and
    after a prefix function. *)
Definition operandStart (prev : option token) : bool :=
  operandExpected prev || match prev with Some (fn _) => true | _ => false end.

(** The tokens that may follow [prev] in an expression: a number, a
    constant, an open-paren or a prefix function where an operand may
    start, a unary minus where an operand is expected, a binary operator
    or a close-paren after an operand.  A unary minus directly after [^]
    and the postfix factorial are left out. *)
Definition mayFollow (prev : option token) (t : token) : bool :=
  match t with
  | num _ | const _ => operandStart prev
  | paren true => operandStart prev
  | fn Fact => false
  | fn _ => operandStart prev
  | op UMinus =>
      operandExpected prev && match prev with Some (op Caret) => false | _ => true end
  | op _ => operandEnd prev
  | paren false => operandEnd prev
  end.

(** A well-formed expression, read from the token before and the nesting
    depth: every token may follow the one before it, the parentheses are
    balanced, and the sequence ends with an operand. *)
Fixpoint wellFormedFrom (prev : option token) (depth : nat) (tokens : list token) : bool :=
  match tokens with
  | [] => operandEnd prev && (depth =? 0)%nat
  | t :: rest =>
      mayFollow prev t &&
      match t with
      | paren true => wellFormedFrom (Some t) (S depth) rest
      | paren false =>
          match depth with
          | O => false
          | S d => wellFormedFrom (Some t) d rest
          end
      | _ => wellFormedFrom (Some t) depth rest
      end
  end.

Definition wellFormed (tokens : list token) : bool := wellFormedFrom None 0 tokens.

(** The depth of the value stack after a postfix sequence read from the
    depth [depth], if no token takes more values than the stack holds. *)
Fixpoint runDepth (rpn : list token) (depth : nat) : option nat :=
  match rpn with
  | [] => Some depth
  | t :: rpn' =>
      if negb (isParen t) && (operands t <=? depth)%nat
      then runDepth rpn' (depth - operands t + 1)
      else None
  end.

(** The binary operators of a token list. *)
Fixpoint binaries (tokens : list token) : nat :=
  match tokens with
  | [] => 0
  | t :: rest => ((if (operands t =? 2)%nat then 1 else 0) + binaries rest)%nat
  end.

(** What the parser stack holds: operators, functions and open-parens. *)
Definition onStack (t : token) : bool :=
  match t with
  | op _ | fn _ | paren true => true
  | _ => false
  end.

(** The state of the parser after the token [prev] of a well-formed
    expression, at the nesting depth [depth]: the output read so far has
    the depth [d]; after an operand [d] is one more than the number of
    binary operators on the stack, and where an operand is expected it is
    that number and the token [prev] is on top of the stack. *)
Definition parserInvariant (prev : option token) (depth : nat)
    (output stack : list token) : Prop :=
  Forall (fun t => onStack t = true) stack
  /\ opens stack = depth
  /\ runDepth output 0 =
     Some (if operandEnd prev then S (binaries stack) else binaries stack)
  /\ match prev with
     | None => stack = []
     | Some (op o) => exists rest, stack = op o :: rest
     | Some (paren true) => exists rest, stack = paren true :: rest
     | Some (fn f) => exists rest, stack = fn f :: rest
     | _ => True
     end.

(** The factorial of a natural number. *)
Fixpoint Zfactorial (k : nat) : Z :=
  match k with
  | O => 1%Z
  | S k' => (Z.of_nat k * Zfactorial k')%Z
  end.

(** The Number [x] is finite and exactly the integer [z], sign included. *)
Definition isInteger (x : float) (z : Z) : Prop :=
  match Prim2SF x with
  | S754_zero _ => z = 0%Z
  | S754_finite s m e =>
      let '(p, q) := fraction x in ((if s then - p else p) = z * q)%Z
  | _ => False
  end.

(** The code units the scanner reads: digits, the dot, letters,
    parentheses, the operator signs and [!]. *)
Definition lexable (c : N) : bool :=
  isDigit c || isDot c || isAlpha c || (c =? 40)%N || (c =? 41)%N
  || match operatorOf c with Some _ => true | None => false end
  || (c =? 33)%N.


(** * Properties *)

(** ** The evaluator and the stack discipline *)

Section EvaluatorFacts.

Context {M : NativeMath}.
Variable state : State.

Lemma evalToken_depth (t : token) (st st' : list float) :
  evalToken state t st = Ok st' ->
  isParen t = false /\ (operands t <= length st)%nat
  /\ length st' = (length st - operands t + 1)%nat.
Proof.
  destruct t as [v | o | b | f | c]; simpl; intros H.
  - injection H as <-. simpl. repeat split; lia.
  - destruct (Nat.ltb_spec (length st) (arity (OP o))) as [Hlt | Hge];
      [discriminate |].
    destruct o, st as [| b [| a st1]]; simpl in *;
      try discriminate; try lia; injection H as <-; simpl; repeat split; lia.
  - discriminate.
  - destruct st as [| a st1]; simpl in *; [discriminate |].
    injection H as <-. simpl. repeat split; lia.
  - injection H as <-. simpl. repeat split; lia.
Qed.

Lemma evalToken_total (t : token) (st : list float) :
  isParen t = false -> (operands t <= length st)%nat ->
  exists st', evalToken state t st = Ok st'.
Proof.
  destruct t as [v | o | b | f | c]; simpl; intros Hp Hd;
    try discriminate; eauto.
  - destruct (Nat.ltb_spec (length st) (arity (OP o))) as [Hlt | Hge]; [lia |].
    destruct o, st as [| b [| a st1]]; simpl in *; try lia; eauto.
  - destruct st as [| a st1]; simpl in *; [lia | eauto].
Qed.

Lemma evalToken_error (t : token) (st : list float) (err : error) :
  evalToken state t st = Throw err ->
  match t with
  | paren _ => err = UnknownTokenType
  | op _ => err = BadExpression /\ (length st < operands t)%nat
  | fn _ => err = BadFunction /\ (length st < operands t)%nat
  | _ => False
  end.
Proof.
  destruct t as [v | o | b | f | c]; simpl; intros H; try discriminate.
  - destruct (Nat.ltb_spec (length st) (arity (OP o))) as [Hlt | Hge].
    + injection H as <-. auto.
    + destruct o, st as [| b [| a st1]]; simpl in *; try discriminate; lia.
  - injection H as <-. reflexivity.
  - destruct st as [| a st1]; simpl in *; [| discriminate].
    injection H as <-. split; [reflexivity | lia].
Qed.

(** The evaluator returns a value exactly on the sequences that keep the
    stack discipline; the values on the stack play no part. *)
Lemma evalRPN_from_returns (rpn : list token) (st : list float) :
  (exists v, evalRPN_from state rpn st = Ok v) <-> stackDepths rpn (length st) = true.
Proof.
  revert st. induction rpn as [| t rpn IH]; intros st; simpl.
  - destruct st as [| v [| w st]]; simpl; split; intros H;
      try discriminate; try (destruct H; discriminate); eauto.
  - split.
    + intros [v Hv]. destruct (evalToken state t st) as [st' |] eqn:Ht;
        simpl in Hv; [| discriminate].
      apply evalToken_depth in Ht as (Hp & Hd & Hl).
      rewrite Hp. simpl. apply Nat.leb_le in Hd. rewrite Hd. simpl.
      rewrite <- Hl. apply IH. eauto.
    + intros H. apply andb_prop in H as [H H3]. apply andb_prop in H as [H1 H2].
      apply negb_true_iff in H1. apply Nat.leb_le in H2.
      destruct (evalToken_total t st H1 H2) as [st' Ht].
      rewrite Ht. simpl. apply IH.
      apply evalToken_depth in Ht as (_ & _ & Hl). rewrite Hl. exact H3.
Qed.

Lemma evalRPN_from_throws (rpn : list token) (st : list float) (err : error) :
  evalRPN_from state rpn st = Throw err ->
  Forall (fun t => isParen t = false) rpn ->
  err = BadExpression \/ err = BadFunction.
Proof.
  revert st. induction rpn as [| t rpn IH]; intros st H Hnp; simpl in H.
  - destruct st as [| v [| w st]]; try discriminate; injection H as <-; auto.
  - inversion Hnp as [| ? ? Hp Hnp']; subst.
    destruct (evalToken state t st) as [st' |] eqn:Ht; simpl in H.
    + eauto.
    + injection H as <-. apply evalToken_error in Ht.
      destruct t; simpl in Hp; try discriminate; try tauto.
Qed.

End EvaluatorFacts.

(** ** The parser *)

Lemma bind_Ok {A B : Type} (r : result A) (k : A -> result B) (b : B) :
  bind r k = Ok b -> exists a, r = Ok a /\ k a = Ok b.
Proof. destruct r as [a | err]; simpl; [eauto | discriminate]. Qed.

Lemma shuntAll_app (pre post output stack : list token) :
  shuntAll (pre ++ post) output stack =
  ('(o, s) <- shuntAll pre output stack ;; shuntAll post o s).
Proof.
  revert output stack. induction pre as [| t pre IH]; intros output stack; simpl.
  - reflexivity.
  - destruct (shunt t output stack) as [[o s] | err]; simpl; [apply IH | reflexivity].
Qed.

(** What the operator loop moves: a run of operators and functions from the
    top of the stack to the end of the output, in the order popped. *)
Lemma popOperators_moves (t : opsym) (output stack output' stack' : list token) :
  popOperators t output stack = (output', stack') ->
  exists popped, output' = output ++ popped /\ stack = popped ++ stack'
                 /\ Forall (fun x => isParen x = false) popped.
Proof.
  revert output. induction stack as [| top stack IH]; intros output H; simpl in H.
  - injection H as <- <-. exists []. rewrite app_nil_r. auto.
  - destruct top as [v | o | b | f | c];
      try (injection H as <- <-; exists []; rewrite app_nil_r; auto; fail).
    + destruct (popsOperator t o).
      * apply IH in H as (popped & -> & -> & Hp). exists (op o :: popped).
        rewrite <- app_assoc. simpl. auto.
      * injection H as <- <-. exists []. rewrite app_nil_r. auto.
    + apply IH in H as (popped & -> & -> & Hp). exists (fn f :: popped).
      rewrite <- app_assoc. simpl. auto.
Qed.

Lemma popToOpen_moves (output stack output' stack' : list token) :
  popToOpen output stack = (output', stack') ->
  exists popped, output' = output ++ popped /\ stack = popped ++ stack'
                 /\ ~ In (paren true) popped
                 /\ (stack' = [] \/ exists rest, stack' = paren true :: rest).
Proof.
  revert output. induction stack as [| top stack IH]; intros output H; simpl in H.
  - injection H as <- <-. exists []. rewrite app_nil_r. auto.
  - assert (Hpop : top <> paren true ->
              popToOpen (output ++ [top]) stack = (output', stack') ->
              exists popped, output' = output ++ popped /\ top :: stack = popped ++ stack'
                 /\ ~ In (paren true) popped
                 /\ (stack' = [] \/ exists rest, stack' = paren true :: rest)).
    { intros Hne H'. apply IH in H' as (popped & -> & -> & Hn & Hs).
      exists (top :: popped). rewrite <- app_assoc. simpl.
      repeat split; auto. intros [Heq | Hin]; auto. }
    destruct top as [v | o | [|] | f | c]; try (apply Hpop; [discriminate | exact H]).
    injection H as <- <-. exists []. rewrite app_nil_r. simpl.
    repeat split; [tauto | right; eexists; reflexivity].
Qed.

Lemma popToOpen_no_open (output stack : list token) :
  ~ In (paren true) stack -> snd (popToOpen output stack) = [].
Proof.
  revert output. induction stack as [| top stack IH]; intros output Hn; simpl.
  - reflexivity.
  - destruct top as [v | o | [|] | f | c];
      try (apply IH; intros Hin; apply Hn; right; exact Hin).
    exfalso. apply Hn. left. reflexivity.
Qed.

Lemma shunt_parserState (t : token) (output stack output' stack' : list token) :
  parserState output stack ->
  shunt t output stack = Ok (output', stack') ->
  parserState output' stack'.
Proof.
  intros [Ho Hs] H. unfold parserState.
  destruct t as [v | o | [|] | f | c]; simpl in H.
  - injection H as <- <-. split; [| exact Hs].
    apply Forall_app. auto.
  - destruct (popOperators o output stack) as [o1 s1] eqn:Hp.
    injection H as <- <-. apply popOperators_moves in Hp as (popped & -> & -> & Hf).
    split; [apply Forall_app; auto |].
    intros [Heq | Hin]; [discriminate |]. apply Hs, in_or_app. auto.
  - injection H as <- <-. split; [exact Ho |].
    intros [Heq | Hin]; [discriminate | auto].
  - destruct (popToOpen output stack) as [o1 s1] eqn:Hp.
    apply popToOpen_moves in Hp as (popped & -> & -> & Hn & Hs1).
    assert (Hpo : Forall (fun t => isParen t = false) (output ++ popped)).
    { apply Forall_app. split; [exact Ho |]. apply Forall_forall. intros x Hx.
      destruct x as [v | o | [|] | f | c]; try reflexivity.
      - exfalso. auto.
      - exfalso. apply Hs, in_or_app. auto. }
    destruct s1 as [| top s1]; [discriminate |].
    assert (Hs' : ~ In (paren false) s1).
    { intros Hin. apply Hs, in_or_app. right. right. exact Hin. }
    destruct s1 as [| [v | o | b | f | c] s2]; injection H as <- <-;
      try (split; [exact Hpo | exact Hs']).
    split; [apply Forall_app; auto |].
    intros Hin. apply Hs'. right. exact Hin.
  - destruct f; injection H as <- <-;
      try (split; [exact Ho | intros [Heq | Hin]; [discriminate | auto]]).
    split; [apply Forall_app; auto | exact Hs].
  - injection H as <- <-. split; [| exact Hs].
    apply Forall_app. auto.
Qed.

Lemma shuntAll_parserState (tokens output stack output' stack' : list token) :
  parserState output stack ->
  shuntAll tokens output stack = Ok (output', stack') ->
  parserState output' stack'.
Proof.
  revert output stack. induction tokens as [| t tokens IH]; intros output stack Hi H;
    simpl in H.
  - injection H as <- <-. exact Hi.
  - apply bind_Ok in H as ([o s] & Ht & H). eapply IH; [| exact H].
    eapply shunt_parserState; eassumption.
Qed.

Lemma drain_returns (output stack rpn : list token) :
  drain output stack = Ok rpn ->
  rpn = output ++ stack /\ Forall (fun t => isParen t = false) stack.
Proof.
  revert output. induction stack as [| top stack IH]; intros output H; simpl in H.
  - injection H as <-. rewrite app_nil_r. auto.
  - destruct top as [v | o | b | f | c]; try discriminate;
      apply IH in H as [-> Hf]; rewrite <- app_assoc; simpl; auto.
Qed.

Lemma drain_throws (output stack : list token) (err : error) :
  drain output stack = Throw err ->
  err = MismatchedParentheses /\ exists b, In (paren b) stack.
Proof.
  revert output. induction stack as [| top stack IH]; intros output H; simpl in H.
  - discriminate.
  - destruct top as [v | o | b | f | c];
      try (apply IH in H as [-> [b Hb]]; split; [reflexivity | exists b; right; exact Hb]).
    injection H as <-. split; [reflexivity | exists b; left; reflexivity].
Qed.

Lemma drain_open (output stack : list token) :
  In (paren true) stack -> drain output stack = Throw MismatchedParentheses.
Proof.
  revert output. induction stack as [| top stack IH]; intros output Hin; simpl.
  - destruct Hin.
  - destruct top as [v | o | b | f | c]; try reflexivity;
      (destruct Hin as [Heq | Hin]; [discriminate | apply IH; exact Hin]).
Qed.

(** The output of the parser holds no parenthesis. *)
Lemma toRPN2_no_paren (tokens rpn : list token) :
  toRPN2 tokens = Ok rpn -> Forall (fun t => isParen t = false) rpn.
Proof.
  unfold toRPN2. intros H. apply bind_Ok in H as ([o s] & Hs & Hd).
  apply shuntAll_parserState in Hs as [Ho _]; [| split; [constructor | intros []]].
  apply drain_returns in Hd as [-> Hf]. apply Forall_app. auto.
Qed.

Lemma shunt_throws (t : token) (output stack : list token) (err : error) :
  shunt t output stack = Throw err ->
  t = paren false /\ err = MismatchedParentheses /\ ~ In (paren true) stack.
Proof.
  destruct t as [v | o | [|] | f | c]; simpl; intros H; try discriminate.
  - destruct (popOperators o output stack); discriminate.
  - destruct (popToOpen output stack) as [o1 s1] eqn:Hp.
    apply popToOpen_moves in Hp as (popped & -> & -> & Hn & Hs1).
    destruct s1 as [| top s1].
    + injection H as <-. rewrite app_nil_r. auto.
    + destruct s1 as [| [v | o | b | f | c] s2]; discriminate.
  - destruct f; discriminate.
Qed.

Lemma shuntAll_throws (tokens output stack : list token) (err : error) :
  shuntAll tokens output stack = Throw err ->
  err = MismatchedParentheses
  /\ exists pre post o s, tokens = pre ++ paren false :: post
       /\ shuntAll pre output stack = Ok (o, s) /\ ~ In (paren true) s.
Proof.
  revert output stack. induction tokens as [| t tokens IH]; intros output stack H;
    simpl in H.
  - discriminate.
  - destruct (shunt t output stack) as [[o s] | err'] eqn:Ht; simpl in H.
    + apply IH in H as (-> & pre & post & o' & s' & -> & Hs & Hn).
      split; [reflexivity |]. exists (t :: pre), post, o', s'.
      simpl. rewrite Ht. simpl. auto.
    + injection H as <-. apply shunt_throws in Ht as (-> & -> & Hn).
      split; [reflexivity |]. exists [], tokens, output, stack. auto.
Qed.

(** The parser fails exactly on the mismatched sequences, and with no
    other error. *)
Lemma toRPN2_throws (tokens : list token) (err : error) :
  toRPN2 tokens = Throw err -> err = MismatchedParentheses /\ mismatched tokens.
Proof.
  unfold toRPN2. intros H.
  destruct (shuntAll tokens [] []) as [[o s] | err'] eqn:Hs; simpl in H.
  - apply drain_throws in H as [-> [b Hb]]. split; [reflexivity |].
    apply shuntAll_parserState in Hs as Hi; [| split; [constructor | intros []]].
    destruct b; [| exfalso; apply Hi, Hb].
    eapply openAtEnd; eassumption.
  - injection H as <-.
    apply shuntAll_throws in Hs as (-> & pre & post & o & s & -> & Hs & Hn).
    split; [reflexivity |]. eapply closeWithoutOpen; eauto.
Qed.

Lemma toRPN2_mismatched (tokens : list token) :
  mismatched tokens -> toRPN2 tokens = Throw MismatchedParentheses.
Proof.
  unfold toRPN2. intros [pre post o s -> Hs Hn | o s Hs Hin].
  - rewrite shuntAll_app, Hs. simpl.
    pose proof (popToOpen_no_open o s Hn) as Hp.
    destruct (popToOpen o s) as [o1 s1]. simpl in Hp. subst s1. reflexivity.
  - rewrite Hs. simpl. apply drain_open. exact Hin.
Qed.

Lemma shunt_extends (t : token) (output stack output' stack' : list token) :
  shunt t output stack = Ok (output', stack') -> exists more, output' = output ++ more.
Proof.
  destruct t as [v | o | [|] | f | c]; simpl; intros H.
  - injection H as <- <-. eauto.
  - destruct (popOperators o output stack) as [o1 s1] eqn:Hp.
    injection H as <- <-. apply popOperators_moves in Hp as (popped & -> & _). eauto.
  - injection H as <- <-. exists []. rewrite app_nil_r. reflexivity.
  - destruct (popToOpen output stack) as [o1 s1] eqn:Hp.
    apply popToOpen_moves in Hp as (popped & -> & _).
    destruct s1 as [| top s1]; [discriminate |].
    destruct s1 as [| [v | o | b | f | c] s2]; injection H as <- <-; eauto.
    rewrite <- app_assoc. eauto.
  - destruct f; injection H as <- <-; eauto; exists []; rewrite app_nil_r; reflexivity.
  - injection H as <- <-. eauto.
Qed.

Lemma shuntAll_extends (tokens output stack output' stack' : list token) :
  shuntAll tokens output stack = Ok (output', stack') ->
  exists more, output' = output ++ more.
Proof.
  revert output stack. induction tokens as [| t tokens IH]; intros output stack H;
    simpl in H.
  - injection H as <- <-. exists []. rewrite app_nil_r. reflexivity.
  - apply bind_Ok in H as ([o s] & Ht & H).
    apply shunt_extends in Ht as [m1 ->]. apply IH in H as [m2 ->].
    rewrite <- app_assoc. eauto.
Qed.

Lemma opens_app (a b : list token) : opens (a ++ b) = (opens a + opens b)%nat.
Proof.
  induction a as [| [v | o | [|] | f | c] a IH]; simpl; try rewrite IH; reflexivity.
Qed.

Lemma opens_zero (l : list token) : opens l = 0%nat <-> ~ In (paren true) l.
Proof.
  induction l as [| [v | o | [|] | f | c] l IH]; simpl;
    try (split; [intros H [Heq | Hin]; [discriminate | apply IH in H; auto]
                | intros H; apply IH; auto]).
  - tauto.
  - split; [discriminate | intros H; exfalso; auto].
Qed.

Lemma popOperators_opens (t : opsym) (output stack output' stack' : list token) :
  popOperators t output stack = (output', stack') -> opens stack' = opens stack.
Proof.
  revert output. induction stack as [| top stack IH]; intros output H; simpl in H.
  - injection H as <- <-. reflexivity.
  - destruct top as [v | o | b | f | c]; try (injection H as <- <-; reflexivity).
    + destruct (popsOperator t o); [apply IH in H; exact H | injection H as <- <-; reflexivity].
    + apply IH in H. exact H.
Qed.

(** The parser stack holds no value. *)
Lemma shunt_values (t : token) (output stack output' stack' : list token) :
  values stack = [] ->
  shunt t output stack = Ok (output', stack') ->
  values stack' = [] /\ values output' = values (output ++ [t]).
Proof.
  unfold values. intros Hs H.
  destruct t as [v | o | [|] | f | c]; simpl in H.
  - injection H as <- <-. auto.
  - destruct (popOperators o output stack) as [o1 s1] eqn:Hp.
    injection H as <- <-.
    apply popOperators_moves in Hp as (popped & -> & -> & Hf).
    rewrite filter_app in Hs. apply app_eq_nil in Hs as [Hp Hs].
    rewrite !filter_app, Hp. simpl. rewrite !app_nil_r. auto.
  - injection H as <- <-. rewrite filter_app. simpl. rewrite app_nil_r. auto.
  - destruct (popToOpen output stack) as [o1 s1] eqn:Hp.
    apply popToOpen_moves in Hp as (popped & -> & -> & Hn & Hs1).
    destruct Hs1 as [-> | [rest ->]]; [discriminate |].
    rewrite filter_app in Hs. apply app_eq_nil in Hs as [Hp Hs]. simpl in Hs.
    destruct rest as [| [v | o | b | f | c] s2]; injection H as <- <-;
      simpl in Hs; try discriminate Hs;
      rewrite !filter_app, ?Hp; simpl; rewrite ?app_nil_r; auto.
  - destruct f; injection H as <- <-; rewrite ?filter_app; simpl;
      rewrite ?app_nil_r; auto.
  - injection H as <- <-. auto.
Qed.

Lemma shuntAll_values (tokens output stack output' stack' : list token) :
  values stack = [] ->
  shuntAll tokens output stack = Ok (output', stack') ->
  values stack' = [] /\ values output' = values (output ++ tokens).
Proof.
  revert output stack. induction tokens as [| t tokens IH]; intros output stack Hs H;
    simpl in H.
  - injection H as <- <-. rewrite app_nil_r. auto.
  - apply bind_Ok in H as ([o s] & Ht & H).
    apply (shunt_values _ _ _ _ _ Hs) in Ht as [Hs' Ho].
    apply (IH _ _ Hs') in H as [Hs'' Ho']. split; [exact Hs'' |].
    rewrite Ho'. unfold values in *.
    change (t :: tokens) with ([t] ++ tokens).
    rewrite filter_app, Ho, !filter_app, <- app_assoc. reflexivity.
Qed.

(** ** The tokenizer's passes *)

Lemma lastOf_snoc (out : list token) (t : token) : lastOf (out ++ [t]) = Some t.
Proof. unfold lastOf. rewrite map_app. simpl. apply last_last. Qed.

Lemma canLeft_leftOperand (t : token) : canLeft (Some t) = leftOperand t.
Proof. destruct t as [v | o | [|] | f | c]; reflexivity. Qed.

Lemma canRight_rightOperand (t : token) : canRight (Some t) = rightOperand t.
Proof. destruct t as [v | o | [|] | f | c]; reflexivity. Qed.

Lemma insertRound_snoc (out : list token) (prev cur : token) :
  insertRound (out ++ [prev]) cur =
  if leftOperand prev && rightOperand cur then out ++ [prev; op Times; cur]
  else out ++ [prev; cur].
Proof.
  unfold insertRound. rewrite lastOf_snoc, canLeft_leftOperand, canRight_rightOperand.
  destruct (leftOperand prev && rightOperand cur) eqn:Hb.
  - destruct prev as [v | o | [|] | f | c], cur as [v' | o' | [|] | f' | c'];
      simpl in Hb; try discriminate; rewrite <- !app_assoc; reflexivity.
  - rewrite <- app_assoc. reflexivity.
Qed.

Lemma insertRounds_snoc (tokens out : list token) (prev : token) :
  fold_left insertRound tokens (out ++ [prev]) = out ++ timesBetween (prev :: tokens).
Proof.
  revert out prev. induction tokens as [| cur tokens IH]; intros out prev.
  - reflexivity.
  - cbn [fold_left]. rewrite insertRound_snoc.
    change (timesBetween (prev :: cur :: tokens)) with
      (if leftOperand prev && rightOperand cur
       then prev :: op Times :: timesBetween (cur :: tokens)
       else prev :: timesBetween (cur :: tokens)).
    destruct (leftOperand prev && rightOperand cur).
    + change (out ++ [prev; op Times; cur]) with (out ++ [prev; op Times] ++ [cur]).
      rewrite app_assoc, IH, <- app_assoc. reflexivity.
    + change (out ++ [prev; cur]) with (out ++ [prev] ++ [cur]).
      rewrite app_assoc, IH, <- app_assoc. reflexivity.
Qed.

Lemma insertImplicitMultiplication_timesBetween (tokens : list token) :
  insertImplicitMultiplication tokens = timesBetween tokens.
Proof.
  change (insertImplicitMultiplication tokens) with (fold_left insertRound tokens []).
  destruct tokens as [| t tokens]; [reflexivity |].
  cbn [fold_left]. change (insertRound [] t) with ([] ++ [t]).
  apply (insertRounds_snoc tokens [] t).
Qed.

(** ** Stack discipline of parsed input (C1) *)

(** For every input accepted by the Lexer and the Parser, the Evaluator
    returns a value exactly when the postfix sequence keeps the stack
    discipline; otherwise it throws "Bad expression" or "Bad function",
    and never meets a parenthesis. *)
Lemma evaluator_returns_iff_stack_discipline
  (M : NativeMath) (state : State) (raw : jsstring) (tokens rpn : list token) :
  tokenize raw = Ok tokens ->
  toRPN2 tokens = Ok rpn ->
  Forall (fun t => isParen t = false) rpn
  /\ ((exists v, evaluateExpression state raw = Ok v) <-> stackDepths rpn 0 = true)
  /\ (forall err, evaluateExpression state raw = Throw err ->
        stackDepths rpn 0 = false /\ (err = BadExpression \/ err = BadFunction)).
Proof.
  intros Ht Hr. pose proof (toRPN2_no_paren tokens rpn Hr) as Hnp.
  assert (He : evaluateExpression state raw = evalRPN state rpn).
  { unfold evaluateExpression. rewrite Ht. simpl. rewrite Hr. reflexivity. }
  rewrite He. unfold evalRPN. split; [exact Hnp | split].
  - apply (evalRPN_from_returns state rpn []).
  - intros err Herr. split.
    + destruct (stackDepths rpn 0) eqn:Hd; [| reflexivity].
      apply (evalRPN_from_returns state rpn []) in Hd as [v Hv].
      rewrite Hv in Herr. discriminate.
    + eapply evalRPN_from_throws; eassumption.
Qed.

Lemma runDepth_app (a b : list token) (d : nat) :
  runDepth (a ++ b) d =
  match runDepth a d with
  | Some d' => runDepth b d'
  | None => None
  end.
Proof.
  revert d. induction a as [| t a IH]; intros d; simpl; [reflexivity |].
  destruct (negb (isParen t) && (operands t <=? d)%nat); [apply IH | reflexivity].
Qed.

Lemma stackDepths_runDepth (rpn : list token) (d : nat) :
  stackDepths rpn d = true <-> runDepth rpn d = Some 1%nat.
Proof.
  revert d. induction rpn as [| t rpn IH]; intros d; simpl.
  - rewrite Nat.eqb_eq. split; [intros ->; reflexivity | intros H; injection H; auto].
  - destruct (negb (isParen t) && (operands t <=? d)%nat); simpl;
      [apply IH | split; discriminate].
Qed.

(** Operators and functions moved from the stack to the output after an
    operand keep the count. *)
Lemma runDepth_popped (popped rest output : list token) :
  Forall (fun t => onStack t = true) popped ->
  ~ In (paren true) popped ->
  runDepth output 0 = Some (S (binaries (popped ++ rest))) ->
  runDepth (output ++ popped) 0 = Some (S (binaries rest)).
Proof.
  revert output. induction popped as [| t popped IH]; intros output Hs Hn H.
  - rewrite app_nil_r. exact H.
  - inversion Hs as [| ? ? Ht Hs']; subst.
    change (output ++ t :: popped) with (output ++ [t] ++ popped).
    rewrite app_assoc. apply IH; [exact Hs' | intros Hin; apply Hn; right; exact Hin |].
    rewrite runDepth_app, H. cbn [app binaries runDepth].
    destruct t as [v | o | [|] | f | c]; try discriminate Ht.
    + destruct o; cbn; apply f_equal; lia.
    + exfalso. apply Hn. left. reflexivity.
    + cbn. apply f_equal. lia.
Qed.

Lemma onStack_split (popped rest : list token) :
  Forall (fun t => onStack t = true) (popped ++ rest) ->
  Forall (fun t => onStack t = true) popped /\ Forall (fun t => onStack t = true) rest.
Proof. apply Forall_app. Qed.

Lemma popped_no_open (popped : list token) :
  Forall (fun x => isParen x = false) popped -> ~ In (paren true) popped.
Proof.
  intros H Hin. rewrite Forall_forall in H. specialize (H _ Hin). discriminate.
Qed.

Lemma shunt_wellFormed (prev : option token) (depth : nat) (t : token)
    (output stack : list token) :
  parserInvariant prev depth output stack ->
  mayFollow prev t = true ->
  (t = paren false -> depth <> 0%nat) ->
  exists o s, shunt t output stack = Ok (o, s)
    /\ parserInvariant (Some t)
         match t with
         | paren true => S depth
         | paren false => Nat.pred depth
         | _ => depth
         end o s.
Proof.
  intros (Hs & Ho & Hd & Htop) Hf Hdepth.
  destruct t as [v | o | [|] | f | c].
  - (* a number *)
    exists (output ++ [num v]), stack. split; [reflexivity |].
    cbn in Hf. repeat split; auto.
    rewrite runDepth_app, Hd.
    destruct prev as [[? | ? | [|] | ? | ?] |]; try discriminate Hf; cbn; apply f_equal; lia.
  - (* an operator *)
    cbn [shunt]. destruct (popOperators o output stack) as [o1 s1] eqn:Hp.
    exists o1, (op o :: s1). split; [reflexivity |].
    destruct (operandEnd prev) eqn:He.
    + (* binary, after an operand *)
      assert (Ho2 : operands (op o) = 2%nat).
      { destruct o; try reflexivity. cbn in Hf.
        destruct prev as [[? | ? | [|] | ? | ?] |]; discriminate. }
      pose proof (popOperators_opens _ _ _ _ _ Hp) as Hop.
      apply popOperators_moves in Hp as (popped & -> & -> & Hnp).
      apply onStack_split in Hs as [Hs1 Hs2].
      repeat split.
      * constructor; [reflexivity | exact Hs2].
      * cbn [opens]. rewrite Hop. exact Ho.
      * rewrite (runDepth_popped popped s1 output Hs1 (popped_no_open _ Hnp) Hd).
        cbn [operandEnd binaries]. rewrite Ho2. reflexivity.
      * eauto.
    + (* unary minus, where an operand is expected *)
      assert (Hu : o = UMinus).
      { destruct o; try reflexivity; cbn in Hf; congruence. }
      subst o. cbn in Hf. apply andb_prop in Hf as [Hf Hc].
      assert (Hnone : popOperators UMinus output stack = (output, stack)).
      { destruct prev as [[? | o' | [|] | ? | ?] |]; try discriminate Hf.
        - destruct Htop as [rest ->]. destruct o'; try discriminate Hc; reflexivity.
        - destruct Htop as [rest ->]. reflexivity.
        - subst stack. reflexivity. }
      rewrite Hnone in Hp. injection Hp as <- <-.
      repeat split.
      * constructor; [reflexivity | exact Hs].
      * exact Ho.
      * rewrite Hd. reflexivity.
      * eauto.
  - (* an open-paren *)
    exists output, (paren true :: stack). split; [reflexivity |].
    cbn in Hf. repeat split.
    + constructor; [reflexivity | exact Hs].
    + cbn [opens]. rewrite Ho. reflexivity.
    + rewrite Hd. destruct prev as [[? | ? | [|] | ? | ?] |]; try discriminate Hf;
        reflexivity.
    + eauto.
  - (* a close-paren *)
    cbn in Hf. rewrite Hf in Hd. cbn [shunt].
    destruct (popToOpen output stack) as [o1 s1] eqn:Hp.
    apply popToOpen_moves in Hp as (popped & -> & -> & Hn & Hs1).
    apply onStack_split in Hs as [Hsp Hsr].
    pose proof (runDepth_popped popped s1 output Hsp Hn Hd) as Hd'.
    rewrite opens_app in Ho. apply opens_zero in Hn as Hz. rewrite Hz in Ho.
    destruct Hs1 as [-> | [rest ->]];
      [exfalso; apply (Hdepth eq_refl); rewrite <- Ho; reflexivity |].
    inversion Hsr as [| ? ? _ Hsr']; subst. cbn [opens] in *.
    destruct rest as [| [v | o | b | f | c] s2];
      eexists; eexists; (split; [reflexivity |]); repeat split; auto.
    + inversion Hsr'; assumption.
    + rewrite runDepth_app, Hd'. cbn. apply f_equal. lia.
  - (* a function *)
    cbn in Hf. destruct f; try discriminate Hf;
      (eexists; eexists; split; [reflexivity |]); repeat split;
      try (constructor; [reflexivity | exact Hs]); try exact Ho; eauto;
      rewrite Hd; destruct prev as [[? | ? | [|] | ? | ?] |]; try discriminate Hf;
      reflexivity.
  - (* a constant *)
    exists (output ++ [const c]), stack. split; [reflexivity |].
    cbn in Hf. repeat split; auto.
    rewrite runDepth_app, Hd.
    destruct prev as [[? | ? | [|] | ? | ?] |]; try discriminate Hf; cbn; apply f_equal; lia.
Qed.

Lemma drain_wellFormed (prev : option token) (output stack : list token) :
  parserInvariant prev 0 output stack ->
  operandEnd prev = true ->
  drain output stack = Ok (output ++ stack)
  /\ stackDepths (output ++ stack) 0 = true.
Proof.
  intros (Hs & Ho & Hd & _) He. rewrite He in Hd.
  apply opens_zero in Ho. split.
  - clear Hd. revert output. induction stack as [| t stack IH]; intros output.
    + rewrite app_nil_r. reflexivity.
    + inversion Hs as [| ? ? Ht Hs']; subst.
      assert (Hn : ~ In (paren true) stack) by (intros H; apply Ho; right; exact H).
      destruct t as [v | o | [|] | f | c]; try discriminate Ht;
        try (cbn [drain]; rewrite (IH Hs' Hn), <- app_assoc; reflexivity).
      exfalso. apply Ho. left. reflexivity.
  - apply stackDepths_runDepth.
    rewrite <- (app_nil_r stack) in Hd.
    rewrite (runDepth_popped stack [] output Hs Ho Hd). reflexivity.
Qed.

Lemma toRPN2_from_wellFormed (tokens : list token) (prev : option token) (depth : nat)
    (output stack : list token) :
  parserInvariant prev depth output stack ->
  wellFormedFrom prev depth tokens = true ->
  exists rpn, ('(o, s) <- shuntAll tokens output stack ;; drain o s) = Ok rpn
              /\ stackDepths rpn 0 = true.
Proof.
  revert prev depth output stack.
  induction tokens as [| t tokens IH]; intros prev depth output stack Hi Hw.
  - cbn [wellFormedFrom] in Hw. apply andb_prop in Hw as [He Hz].
    apply Nat.eqb_eq in Hz. subst depth.
    destruct (drain_wellFormed prev output stack Hi He) as [Hd Hs].
    exists (output ++ stack). split; [exact Hd | exact Hs].
  - cbn [wellFormedFrom] in Hw. apply andb_prop in Hw as [Hf Hw].
    assert (Hdepth : t = paren false -> depth <> 0%nat).
    { intros -> ->. discriminate Hw. }
    destruct (shunt_wellFormed prev depth t output stack Hi Hf Hdepth)
      as (o & s & Hsh & Hi').
    cbn [shuntAll]. rewrite Hsh. cbn [bind].
    eapply IH; [exact Hi' |].
    destruct t as [v | o' | [|] | f | c]; try exact Hw.
    destruct depth; [discriminate Hw | exact Hw].
Qed.

(** A well-formed token sequence is parsed to a postfix sequence that
    keeps the stack discipline. *)
Lemma toRPN2_wellFormed (tokens : list token) :
  wellFormed tokens = true ->
  exists rpn, toRPN2 tokens = Ok rpn /\ stackDepths rpn 0 = true.
Proof.
  apply (toRPN2_from_wellFormed tokens None 0 [] []).
  repeat split. constructor.
Qed.

(** The expressions "2+3", "-(2+3)*sin(30)^2", "2pi", "--2^(-3)%sqrt(e)" and
    "sin30" are well-formed; "2+", "2^-3", "5!", "(2", "sin" and "sin-3" are
    not. *)
Lemma wellFormed_examples :
  (exists t, tokenize (js "2+3") = Ok t /\ wellFormed t = true)
  /\ (exists t, tokenize (js "-(2+3)*sin(30)^2") = Ok t /\ wellFormed t = true)
  /\ (exists t, tokenize (js "2pi") = Ok t /\ wellFormed t = true)
  /\ (exists t, tokenize (js "--2^(-3)%sqrt(e)") = Ok t /\ wellFormed t = true)
  /\ (exists t, tokenize (js "sin30") = Ok t /\ wellFormed t = true)
  /\ (exists t, tokenize (js "2+") = Ok t /\ wellFormed t = false)
  /\ (exists t, tokenize (js "2^-3") = Ok t /\ wellFormed t = false)
  /\ (exists t, tokenize (js "5!") = Ok t /\ wellFormed t = false)
  /\ (exists t, tokenize (js "(2") = Ok t /\ wellFormed t = false)
  /\ (exists t, tokenize (js "sin") = Ok t /\ wellFormed t = false)
  /\ (exists t, tokenize (js "sin-3") = Ok t /\ wellFormed t = false).
Proof.
  repeat match goal with |- _ /\ _ => split end;
    eexists; (split; [vm_compute; reflexivity | vm_compute; reflexivity]).
Qed.

(** C1, as amended.  For every input string accepted by the Lexer whose
    token sequence is a well-formed expression, the Parser returns a
    postfix sequence that keeps the stack discipline: read from the empty
    stack, no token takes more values than the stack holds, and the depth
    is exactly 1 at the end.  The Evaluator then returns a value: it raises
    neither "Bad expression" nor "Bad function". *)
Theorem C1_wellformed_input_keeps_stack_discipline
  (M : NativeMath) (state : State) (raw : jsstring) (tokens : list token) :
  tokenize raw = Ok tokens ->
  wellFormed tokens = true ->
  exists rpn, toRPN2 tokens = Ok rpn
    /\ stackDepths rpn 0 = true
    /\ exists v, evalRPN state rpn = Ok v /\ evaluateExpression state raw = Ok v.
Proof.
  intros Ht Hw. destruct (toRPN2_wellFormed tokens Hw) as (rpn & Hr & Hs).
  exists rpn. split; [exact Hr | split; [exact Hs |]].
  apply (evalRPN_from_returns state rpn []) in Hs as [v Hv].
  exists v. split; [exact Hv |].
  unfold evaluateExpression. rewrite Ht. cbn [bind]. rewrite Hr. exact Hv.
Qed.

(** The input "-(2+3)*sin(30)^2" is well-formed, keeps the discipline and
    evaluates. *)
Lemma C1_witness :
  tokenize (js "-(2+3)*sin(30)^2")
  = Ok [op UMinus; paren true; num 2; op Plus; num 3; paren false; op Times;
        fn Sin; paren true; num 30; paren false; op Caret; num 2]
  /\ wellFormed [op UMinus; paren true; num 2; op Plus; num 3; paren false; op Times;
                 fn Sin; paren true; num 30; paren false; op Caret; num 2] = true
  /\ exists rpn,
       toRPN2 [op UMinus; paren true; num 2; op Plus; num 3; paren false; op Times;
               fn Sin; paren true; num 30; paren false; op Caret; num 2] = Ok rpn
       /\ stackDepths rpn 0 = true
       /\ exists v, evalRPN (M := sampleMath) sampleState rpn = Ok v
                    /\ evaluateExpression (M := sampleMath) sampleState
                         (js "-(2+3)*sin(30)^2") = Ok v.
Proof.
  split; [vm_compute; reflexivity | split; [reflexivity |]].
  apply (C1_wellformed_input_keeps_stack_discipline sampleMath sampleState
           (js "-(2+3)*sin(30)^2")); [vm_compute; reflexivity | reflexivity].
Defined.

(** The input "2+" is accepted by the Lexer and by the Parser, and its
    postfix sequence [2 +] takes two values from a stack of one. *)
Lemma C1_counterexample :
  ~ (forall (raw : jsstring) (tokens rpn : list token),
       tokenize raw = Ok tokens -> toRPN2 tokens = Ok rpn ->
       stackDepths rpn 0 = true).
Proof.
  intros H.
  specialize (H (js "2+") [num 2; op Plus] [num 2; op Plus] eq_refl eq_refl).
  discriminate H.
Qed.

(** On "2+" the Evaluator throws "Bad expression". *)
Lemma evaluate_dangling_operator (M : NativeMath) (state : State) :
  evaluateExpression state (js "2+") = Throw BadExpression.
Proof. reflexivity. Qed.

(** ** Precedence of unary minus and exponentiation (C2) *)

(** C2.  With the precedence table of [OP], "-3^2" is parsed to the postfix
    sequence [3 2 ^ u-], the negation of 3^2, and evaluates to -9 (for a
    native [pow] with 3^2 = 9). *)
Theorem C2_unary_minus_below_power (M : NativeMath) (state : State) :
  Math_pow 3 2 = 9 ->
  (OP Plus = {| prec := 1; assoc := L; arity := 2 |}
   /\ OP Minus = {| prec := 1; assoc := L; arity := 2 |}
   /\ OP Times = {| prec := 2; assoc := L; arity := 2 |}
   /\ OP Slash = {| prec := 2; assoc := L; arity := 2 |}
   /\ OP Percent = {| prec := 2; assoc := L; arity := 2 |}
   /\ OP UMinus = {| prec := 3; assoc := R; arity := 1 |}
   /\ OP Caret = {| prec := 4; assoc := R; arity := 2 |})
  /\ (tokens <- tokenize (js "-3^2") ;; toRPN2 tokens)
     = Ok [num 3; num 2; op Caret; op UMinus]
  /\ evaluateExpression state (js "-3^2") = Ok (-9).
Proof.
  intros Hpow. split; [repeat split | split; [reflexivity |]].
  change (evaluateExpression state (js "-3^2")) with (Ok (- Math_pow 3 2)).
  rewrite Hpow. reflexivity.
Qed.

Lemma C2_witness :
  Math_pow (NativeMath := sampleMath) 3 2 = 9
  /\ evaluateExpression (M := sampleMath) sampleState (js "-3^2") = Ok (-9).
Proof.
  split; [reflexivity |].
  apply (C2_unary_minus_below_power sampleMath sampleState). reflexivity.
Defined.

(** ** The percent operator (C3) *)

(** C3.  The binary [%] computes [a * (b / 100)]; it has the precedence 2
    of [*] and [/] and is left-associative, so that [a % b % c] is parsed
    to [a b % c %] and evaluated as [(a % b) % c]; "50%4" evaluates to 2. *)
Theorem C3_percent_of (M : NativeMath) (state : State) (a b c : float) (st : list float) :
  evalToken state (op Percent) (b :: a :: st) = Ok (a * (b / 100) :: st)
  /\ OP Percent = OP Times /\ OP Percent = OP Slash
  /\ prec (OP Percent) = 2%nat /\ assoc (OP Percent) = L
  /\ toRPN2 [num a; op Percent; num b; op Percent; num c]
     = Ok [num a; num b; op Percent; num c; op Percent]
  /\ evalRPN state [num a; num b; op Percent; num c; op Percent]
     = Ok (a * (b / 100) * (c / 100))
  /\ evaluateExpression state (js "50%4") = Ok 2
  /\ evaluateExpression state (js "10%5%2") = Ok (10 * (5 / 100) * (2 / 100))
  /\ evaluateExpression state (js "7%2") = Ok 0.14.
Proof. repeat split. Qed.

(** ** Angle modes (C4) *)

Section AngleModes.

Context {M : NativeMath}.
Variable lastAnswer : float.

Let deg : State := {| state_ans := lastAnswer; state_mode := DEG |}.
Let rad : State := {| state_ans := lastAnswer; state_mode := RAD |}.

(** C4.  In DEG mode [sin], [cos] and [tan] are applied to the operand
    converted from degrees to radians, and the results of [asin], [acos]
    and [atan] on the raw operand are converted from radians to degrees;
    in RAD mode nothing is converted.  "sin(90)" is the native sine of
    90 * Math.PI / 180 = 1.5707963267948966 (the Number nearest to pi/2,
    where the sine is 1) in DEG mode, and the native sine of 90 (radians,
    0.8939966636...) in RAD mode. *)
Theorem C4_trigonometry_by_angle_mode (a : float) (st : list float) :
  (forall (state : State) (f : fname),
      evalToken state (fn f) (a :: st) = Ok (call state f a :: st))
  /\ (call deg Sin a = Math_sin (a * Math_PI / 180)
      /\ call deg Cos a = Math_cos (a * Math_PI / 180)
      /\ call deg Tan a = Math_tan (a * Math_PI / 180))
  /\ (call rad Sin a = Math_sin a
      /\ call rad Cos a = Math_cos a
      /\ call rad Tan a = Math_tan a)
  /\ (call deg Asin a = Math_asin a * 180 / Math_PI
      /\ call deg Acos a = Math_acos a * 180 / Math_PI
      /\ call deg Atan a = Math_atan a * 180 / Math_PI)
  /\ (call rad Asin a = Math_asin a
      /\ call rad Acos a = Math_acos a
      /\ call rad Atan a = Math_atan a)
  /\ evaluateExpression deg (js "sin(90)") = Ok (Math_sin 1.5707963267948966)
  /\ evaluateExpression rad (js "sin(90)") = Ok (Math_sin 90).
Proof. repeat split. Qed.

End AngleModes.

(** ** Implicit multiplication (C7) *)

(** C7.  [insertImplicitMultiplication] puts a [*] between the adjacent
    tokens A and B exactly when A is a Number, a Constant or a close-paren
    and B is a Number, a Constant, a Function or an open-paren; never
    after a Function, so never between a Function and its open-paren.
    "2pi" and "2*pi" have the same tokens and evaluate to 2 * Math.PI =
    6.283185307179586. *)
Theorem C7_implicit_multiplication (M : NativeMath) (state : State) :
  (forall tokens, insertImplicitMultiplication tokens = timesBetween tokens)
  /\ (forall (f : fname) (B : token), leftOperand (fn f) && rightOperand B = false)
  /\ (forall (f : fname) (rest : list token),
         insertImplicitMultiplication (fn f :: paren true :: rest)
         = fn f :: insertImplicitMultiplication (paren true :: rest))
  /\ tokenize (js "2pi") = Ok [num 2; op Times; const Pi]
  /\ tokenize (js "2*pi") = Ok [num 2; op Times; const Pi]
  /\ evaluateExpression state (js "2pi") = evaluateExpression state (js "2*pi")
  /\ evaluateExpression state (js "2*pi") = Ok (2 * Math_PI)
  /\ 2 * Math_PI = 6.283185307179586.
Proof.
  split; [exact insertImplicitMultiplication_timesBetween |].
  split; [reflexivity |].
  split; [| repeat split].
  intros f rest. rewrite !insertImplicitMultiplication_timesBetween. reflexivity.
Qed.

(** ** Mismatched parentheses (C9) *)

(** C9.  The parser fails with "Mismatched parentheses" on every token
    sequence in which a close-paren is read while no open-paren is on the
    stack or an open-paren is left on the stack at the end of the input,
    on those sequences only, and it fails with no other error;
    "(2+3" and "2+3)" fail this way. *)
Theorem C9_mismatched_parentheses (M : NativeMath) (state : State) :
  (forall tokens, mismatched tokens <-> toRPN2 tokens = Throw MismatchedParentheses)
  /\ (forall tokens err, toRPN2 tokens = Throw err -> err = MismatchedParentheses)
  /\ (forall raw tokens, tokenize raw = Ok tokens ->
        (mismatched tokens <-> evaluateExpression state raw = Throw MismatchedParentheses))
  /\ mismatched [paren true; num 2; op Plus; num 3]
  /\ evaluateExpression state (js "(2+3") = Throw MismatchedParentheses
  /\ mismatched [num 2; op Plus; num 3; paren false]
  /\ evaluateExpression state (js "2+3)") = Throw MismatchedParentheses.
Proof.
  assert (Hiff : forall tokens,
             mismatched tokens <-> toRPN2 tokens = Throw MismatchedParentheses).
  { intros tokens. split; [apply toRPN2_mismatched |].
    intros H. apply toRPN2_throws in H. tauto. }
  split; [exact Hiff | split; [| split; [| split; [| split; [| split]]]]].
  - intros tokens err H. apply toRPN2_throws in H. tauto.
  - intros raw tokens Ht. unfold evaluateExpression. rewrite Ht. simpl.
    rewrite Hiff. destruct (toRPN2 tokens) as [rpn | err] eqn:Hr; simpl.
    + split; [discriminate |]. intros H.
      pose proof (toRPN2_no_paren tokens rpn Hr) as Hnp.
      destruct (evalRPN_from_throws state rpn [] _ H Hnp); discriminate.
    + split; intros H; injection H as ->; reflexivity.
  - apply (openAtEnd _ [num 2; num 3] [op Plus; paren true]);
      [reflexivity | simpl; auto].
  - reflexivity.
  - apply (closeWithoutOpen _ [num 2; op Plus; num 3] [] [num 2; num 3] [op Plus]);
      [reflexivity | reflexivity |].
    simpl. intros [H | []]. discriminate.
  - reflexivity.
Qed.

(** ** Exponentiation followed by a unary minus (C10) *)

(** Read with [^] on top of the stack, a unary minus pops it to the
    output: its precedence 3 is below the 4 of [^]. *)
Lemma shunt_uminus_pops_caret (output stack : list token) :
  shunt (op UMinus) output (op Caret :: stack)
  = shunt (op UMinus) (output ++ [op Caret]) stack.
Proof. reflexivity. Qed.

Lemma runDepth_bound (rpn : list token) (d d' : nat) :
  runDepth rpn d = Some d' -> (d' <= d + length (values rpn))%nat.
Proof.
  revert d. induction rpn as [| t rpn IH]; intros d H; simpl in H.
  - injection H as <-. simpl. lia.
  - destruct (negb (isParen t) && (operands t <=? d)%nat) eqn:Hc; [| discriminate].
    apply andb_prop in Hc as [Hp Hc]. apply Nat.leb_le in Hc.
    apply IH in H. unfold values in *.
    destruct t as [v | o | b | f | c]; try discriminate Hp;
      try destruct o; cbn [filter isValue length operands OP arity] in *; lia.
Qed.

(** A [^] read with fewer than two values on the stack breaks the stack
    discipline. *)
Lemma caret_underflow (before more : list token) :
  (forall d, runDepth before 0 = Some d -> (d < 2)%nat) ->
  stackDepths (before ++ op Caret :: more) 0 = false.
Proof.
  intros Hd. destruct (stackDepths (before ++ op Caret :: more) 0) eqn:Hs; [| reflexivity].
  apply stackDepths_runDepth in Hs. rewrite runDepth_app in Hs.
  destruct (runDepth before 0) as [d |]; [| discriminate].
  specialize (Hd d eq_refl). cbn [runDepth isParen negb operands OP arity andb] in Hs.
  destruct (2 <=? d)%nat eqn:Hl; [apply Nat.leb_le in Hl; lia | discriminate].
Qed.

Lemma values_app (a b : list token) : values (a ++ b) = values a ++ values b.
Proof. apply filter_app. Qed.

(** Reading [^] and then a unary minus, the parser puts the [^] on the
    output before anything that follows the minus: the output [before]
    at the time [^] is pushed holds the values read so far, and [^] is
    the next token of the postfix sequence. *)
Lemma caret_uminus_output (pre post rpn : list token) :
  toRPN2 (pre ++ op Caret :: op UMinus :: post) = Ok rpn ->
  exists before stack more,
    shuntAll (pre ++ [op Caret]) [] [] = Ok (before, op Caret :: stack)
    /\ rpn = before ++ op Caret :: more
    /\ values before = values pre
    /\ values more = values post.
Proof.
  intros H. unfold toRPN2 in H. apply bind_Ok in H as ([o3 s3] & Hs & Hd).
  pose proof (shuntAll_values _ [] [] _ _ eq_refl Hs) as [Hv3 Ho3].
  rewrite shuntAll_app in Hs. apply bind_Ok in Hs as ([o s] & Hpre & Hs).
  pose proof (shuntAll_values _ [] [] _ _ eq_refl Hpre) as [Hvs Hvo].
  cbn [shuntAll shunt] in Hs.
  destruct (popOperators Caret o s) as [o1 s1] eqn:Hp1. cbn [bind] in Hs.
  change (popOperators UMinus o1 (op Caret :: s1))
    with (popOperators UMinus (o1 ++ [op Caret]) s1) in Hs.
  destruct (popOperators UMinus (o1 ++ [op Caret]) s1) as [o2 s2] eqn:Hp2.
  cbn [bind] in Hs.
  apply popOperators_moves in Hp2 as (popped2 & -> & _ & _).
  apply shuntAll_extends in Hs as [m ->].
  apply drain_returns in Hd as [-> _].
  exists o1, s1, (popped2 ++ m ++ s3). split; [| split; [| split]].
  - rewrite shuntAll_app, Hpre. cbn [bind shuntAll shunt]. rewrite Hp1. reflexivity.
  - rewrite <- !app_assoc. reflexivity.
  - apply popOperators_moves in Hp1 as (popped1 & -> & -> & _).
    rewrite values_app in Hvs. apply app_eq_nil in Hvs as [Hvp _].
    rewrite values_app, Hvp, app_nil_r. exact Hvo.
  - assert (Ho1 : values o1 = values pre).
    { apply popOperators_moves in Hp1 as (popped1 & -> & -> & _).
      rewrite values_app in Hvs. apply app_eq_nil in Hvs as [Hvp _].
      rewrite values_app, Hvp, app_nil_r. exact Hvo. }
    cbn [app] in Ho3. rewrite !values_app in Ho3. cbn [values filter isValue] in Ho3.
    fold (values post) in Ho3. fold (values (popped2 ++ m)) in Ho3.
    rewrite Ho1, app_nil_r in Ho3.
    rewrite <- !app_assoc in Ho3. cbn [app] in Ho3.
    apply app_inv_head in Ho3.
    rewrite app_assoc, values_app, Hv3, app_nil_r, values_app. exact Ho3.
Qed.

(** When the [^] is read with fewer than two values on the stack, the
    evaluation throws. *)
Lemma caret_underflow_throws (M : NativeMath) (state : State) (raw : jsstring)
    (tokens before more : list token) :
  tokenize raw = Ok tokens ->
  toRPN2 tokens = Ok (before ++ op Caret :: more) ->
  (forall d, runDepth before 0 = Some d -> (d < 2)%nat) ->
  exists err, evaluateExpression state raw = Throw err
              /\ (err = BadExpression \/ err = BadFunction).
Proof.
  intros Ht Hr Hd. unfold evaluateExpression. rewrite Ht. cbn [bind]. rewrite Hr.
  cbn [bind]. unfold evalRPN.
  destruct (evalRPN_from state (before ++ op Caret :: more) []) as [v | err] eqn:He.
  - assert (Hs : stackDepths (before ++ op Caret :: more) 0 = true).
    { apply (evalRPN_from_returns state _ []). eauto. }
    rewrite (caret_underflow before more Hd) in Hs. discriminate.
  - exists err. split; [reflexivity |].
    eapply evalRPN_from_throws; [exact He | apply (toRPN2_no_paren tokens), Hr].
Qed.

(** C10, as amended.  For every input in which [^] is immediately followed
    by a unary minus, whatever comes before and after, the negative power
    is never computed: the parser pops the [^] to the output before its
    right operand exists, so in the postfix sequence the [^] stands after
    the numbers and constants read before it and before all those that
    follow the minus.  The evaluation fails with a thrown error whenever
    fewer than two values are on the stack when that [^] is read, and so
    whenever fewer than two numbers or constants precede the [^], as in
    "2^-3", "(2^-3)", "-2^-3", "sqrt(2^-3)" and "(2)^-3". *)
Theorem C10_power_is_output_before_negated_operand
  (M : NativeMath) (state : State) (raw : jsstring) (pre post : list token) :
  tokenize raw = Ok (pre ++ op Caret :: op UMinus :: post) ->
  (forall rpn, toRPN2 (pre ++ op Caret :: op UMinus :: post) = Ok rpn ->
     exists before stack more,
       shuntAll (pre ++ [op Caret]) [] [] = Ok (before, op Caret :: stack)
       /\ rpn = before ++ op Caret :: more
       /\ values before = values pre
       /\ values more = values post
       /\ ((forall d, runDepth before 0 = Some d -> (d < 2)%nat) ->
           exists err, evaluateExpression state raw = Throw err
                       /\ (err = BadExpression \/ err = BadFunction)))
  /\ ((length (values pre) < 2)%nat ->
      exists err, evaluateExpression state raw = Throw err
                  /\ (err = BadExpression \/ err = BadFunction
                      \/ err = MismatchedParentheses)).
Proof.
  intros Ht. split.
  - intros rpn Hr.
    destruct (caret_uminus_output pre post rpn Hr)
      as (before & stack & more & Hb & -> & Hvb & Hvm).
    exists before, stack, more. repeat (split; [assumption || reflexivity |]).
    intros Hd. eapply caret_underflow_throws; eassumption.
  - intros Hl.
    destruct (toRPN2 (pre ++ op Caret :: op UMinus :: post)) as [rpn | err] eqn:Hr.
    + destruct (caret_uminus_output pre post rpn Hr)
        as (before & stack & more & _ & -> & Hvb & _).
      destruct (caret_underflow_throws M state raw _ before more Ht Hr)
        as (err & He & Herr).
      * intros d Hd. apply runDepth_bound in Hd. rewrite Hvb in Hd. lia.
      * exists err. split; [exact He | tauto].
    + exists err. split.
      * unfold evaluateExpression. rewrite Ht. cbn [bind]. rewrite Hr. reflexivity.
      * apply toRPN2_throws in Hr as [-> _]. auto.
Qed.

(** At "2^-3" a single number precedes the [^]: the postfix sequence is
    [2 ^ 3 u-] and the evaluation throws. *)
Lemma C10_witness :
  tokenize (js "2^-3") = Ok ([num 2] ++ op Caret :: op UMinus :: [num 3])
  /\ (length (values [num 2]) < 2)%nat
  /\ toRPN2 ([num 2] ++ op Caret :: op UMinus :: [num 3])
     = Ok ([num 2] ++ op Caret :: [num 3; op UMinus])
  /\ exists err,
       evaluateExpression (M := sampleMath) sampleState (js "2^-3") = Throw err
       /\ (err = BadExpression \/ err = BadFunction \/ err = MismatchedParentheses).
Proof.
  split; [reflexivity | split; [cbn; lia | split; [reflexivity |]]].
  destruct (C10_power_is_output_before_negated_operand sampleMath sampleState
              (js "2^-3") [num 2] [num 3] eq_refl) as [_ H].
  apply H. cbn. lia.
Defined.

(** The [^] finds one value on the stack in each of these inputs. *)
Lemma evaluate_negated_power_examples (M : NativeMath) (state : State) :
  evaluateExpression state (js "(2^-3)") = Throw BadExpression
  /\ evaluateExpression state (js "-2^-3") = Throw BadExpression
  /\ evaluateExpression state (js "sqrt(2^-3)") = Throw BadExpression
  /\ evaluateExpression state (js "(2)^-3") = Throw BadExpression
  /\ evaluateExpression state (js "(1+2)^-3") = Throw BadExpression.
Proof. repeat match goal with |- _ /\ _ => split end; reflexivity. Qed.

(** "2^-3" throws for every native library and state. *)
Lemma evaluate_two_to_minus_three (M : NativeMath) (state : State) :
  evaluateExpression state (js "2^-3") = Throw BadExpression.
Proof. reflexivity. Qed.

(** In "1+2^-3" the [^] is immediately followed by a unary minus, and the
    evaluation returns a value: [^] takes 1 and 2 as its operands. *)
Lemma C10_counterexample :
  ~ (forall (M : NativeMath) (state : State) (raw : jsstring) (tokens : list token),
       tokenize raw = Ok tokens -> caretThenUMinus tokens ->
       exists err, evaluateExpression state raw = Throw err).
Proof.
  intros H.
  destruct (H sampleMath sampleState (js "1+2^-3")
              [num 1; op Plus; num 2; op Caret; op UMinus; num 3] eq_refl) as [err Herr].
  - exists [num 1; op Plus; num 2], [num 3]. reflexivity.
  - discriminate Herr.
Qed.

Lemma evaluate_one_plus_two_to_minus_three (M : NativeMath) (state : State) :
  evaluateExpression state (js "1+2^-3") = Ok (Math_pow 1 2 + - 3).
Proof. reflexivity. Qed.

(** ** Numbers *)

Lemma isNegativeZero_eq (n : float) : isNegativeZero n = true -> n = neg_zero.
Proof.
  unfold isNegativeZero, is_zero. intros H. apply andb_prop in H as [Hz Hs].
  rewrite FloatAxioms.eqb_spec in Hz.
  rewrite <- (SF2Prim_Prim2SF n) in Hs |- *.
  destruct (Prim2SF n) as [[|] | s | | s m x]; try discriminate Hz.
  - reflexivity.
  - discriminate Hs.
  - destruct s; discriminate Hz.
  - destruct s; discriminate Hz.
Qed.

(** No decimal digit is the letter E. *)
Lemma digitsOf_digits (k : nat) (s : Z) (c : N) :
  In c (digitsOf k s) -> (48 <= c <= 57)%N.
Proof.
  revert s. induction k as [| k IH]; intros s H; cbn [digitsOf] in H.
  - destruct H.
  - apply in_app_or in H as [H | [<- | []]].
    + eapply IH. exact H.
    + pose proof (Z.mod_pos_bound s 10 ltac:(lia)) as Hb.
      assert (Hc : Z.of_N (Z.to_N (48 + s mod 10)) = (48 + s mod 10)%Z)
        by (apply Z2N.id; lia).
      split; apply N2Z.inj_le; rewrite Hc; change (Z.of_N 48) with 48%Z;
        change (Z.of_N 57) with 57%Z; lia.
Qed.

Lemma firstUnit_app (a b : jsstring) :
  firstUnit (a ++ b) = match a with [] => firstUnit b | c :: _ => c end.
Proof. destruct a; reflexivity. Qed.

Lemma firstUnit_digits (ds rest : jsstring) :
  (forall c, In c ds -> (48 <= c <= 57)%N) ->
  firstUnit rest <> 69%N -> firstUnit (ds ++ rest) <> 69%N.
Proof.
  intros Hd Hr. rewrite firstUnit_app. destruct ds as [| d ds]; [exact Hr |].
  specialize (Hd d (or_introl eq_refl)). lia.
Qed.

Lemma firstUnit_zeros (n : nat) (rest : jsstring) :
  firstUnit rest <> 69%N -> firstUnit (zeros n ++ rest) <> 69%N.
Proof. intros Hr. destruct n; simpl; [exact Hr | discriminate]. Qed.

Lemma positiveToString_first (x : float) : firstUnit (positiveToString x) <> 69%N.
Proof.
  unfold positiveToString.
  destruct (fraction x) as [num den].
  destruct (shortest 17 x (decimalExponent num den) 1) as [[n k] s].
  pose proof (digitsOf_digits k s) as Hd.
  destruct ((Z.of_nat k <=? n)%Z && (n <=? 21)%Z).
  { apply firstUnit_digits; [exact Hd |]. rewrite <- (app_nil_r (zeros _)).
    apply firstUnit_zeros. discriminate. }
  destruct ((0 <? n)%Z && (n <=? 21)%Z).
  { apply firstUnit_digits; [| discriminate].
    intros c Hc. apply Hd.
    rewrite <- (firstn_skipn (Z.to_nat n) (digitsOf k s)).
    apply in_or_app. left. exact Hc. }
  destruct ((-6 <? n)%Z && (n <=? 0)%Z); [discriminate |].
  destruct (digitsOf k s) as [| d [| d' ds]]; [discriminate | |];
    cbn; specialize (Hd d (or_introl eq_refl)); lia.
Qed.

Lemma toString_not_Error (x : float) : toString x <> js "Error".
Proof.
  intros H. assert (Hf : firstUnit (toString x) = 69%N) by (rewrite H; reflexivity).
  clear H. unfold toString in Hf.
  destruct (is_nan x); [discriminate |].
  destruct (is_zero x); [discriminate |].
  destruct (x <? 0).
  - destruct (is_infinity x); discriminate.
  - destruct (is_infinity x); [discriminate |].
    exact (positiveToString_first x Hf).
Qed.

Lemma P170 : Prim2SF 170 = S754_finite false 5981343255101440 (-45).
Proof. vm_compute. reflexivity. Qed.
Lemma P171 : Prim2SF 171 = S754_finite false 6016527627190272 (-45).
Proof. vm_compute. reflexivity. Qed.
Lemma pos_bound (m : positive) :
  match Pos.compare 5981343255101440 m with Lt => true | _ => false end = false ->
  match Pos.compare 6016527627190272 m with Gt => false | _ => true end = false.
Proof.
  intros H.
  assert (Hm : (m <= 5981343255101440)%positive).
  { destruct (Pos.compare_spec 5981343255101440 m) as [Heq | Hlt | Hgt].
    - rewrite <- Heq. apply Pos.le_refl.
    - discriminate H.
    - apply Pos.lt_le_incl. exact Hgt. }
  assert (Hlt : (5981343255101440 < 6016527627190272)%positive) by (vm_compute; reflexivity).
  rewrite (proj2 (Pos.compare_gt_iff _ _)); [reflexivity |].
  eapply Pos.le_lt_trans; eassumption.
Qed.

Lemma loop_bound (n : float) : (170 <? n) = false -> (171 <=? n) = false.
Proof.
  rewrite ltb_spec, leb_spec, P170, P171.
  destruct (Prim2SF n) as [s | s | | s m x]; try reflexivity.
  - destruct s; [reflexivity | discriminate].
  - unfold SFltb, SFleb, SFcompare. destruct s; [reflexivity |].
    destruct (Z.compare (-45) x); try reflexivity; try discriminate.
    apply pos_bound.
Qed.

Lemma factorial_loop_stops (fuel : nat) (i r n : float) :
  (i <=? n) = false -> factorial_loop fuel i r n = r.
Proof. intros H. destruct fuel; simpl; [| rewrite H]; reflexivity. Qed.

Lemma counter_step (k : nat) :
  (k < 171)%nat -> ofZ (Z.of_nat k) + 1 = ofZ (Z.of_nat (S k)).
Proof.
  intros H. do 171 (destruct k as [| k]; [vm_compute; reflexivity |]). lia.
Qed.

(** X13.  The loop of [factorial] ends within 169 rounds: for an operand
    that passes the test [n > 170], more rounds of fuel change nothing. *)
Lemma factorial_loop_fuel (n : float) (extra : nat) :
  (170 <? n) = false ->
  factorial_loop (169 + extra) 2 1 n = factorial_loop 169 2 1 n.
Proof.
  intros Hn. apply loop_bound in Hn.
  assert (H : forall j r, (j <= 169)%nat ->
             factorial_loop (j + extra) (ofZ (Z.of_nat (171 - j))) r n
             = factorial_loop j (ofZ (Z.of_nat (171 - j))) r n).
  { induction j as [| j IH]; intros r Hj.
    - simpl. apply factorial_loop_stops. exact Hn.
    - cbn [factorial_loop Nat.add].
      destruct (ofZ (Z.of_nat (171 - S j)) <=? n); [| reflexivity].
      rewrite counter_step by lia.
      replace (S (171 - S j)) with (171 - j)%nat by lia.
      apply IH. lia. }
  apply (H 169%nat 1). lia.
Qed.

(** ** The postfix factorial (C5) *)

(** C5.  [factorial] gives 120 at 5 and the Evaluator gives 120 on the
    postfix sequence [5 !]; the string "5!" does not reach them in this
    form.  [insertImplicitMultiplication] takes the postfix [!] for a right
    operand and puts a [*] before it, the parser turns [5 * !] into
    [5 ! *], and the Evaluator throws "Bad expression" instead of
    returning 120.  The same happens to "3.5!" and to every value followed
    by [!] at the end of the input. *)
Theorem C5_postfix_factorial_throws (M : NativeMath) (state : State) :
  factorial 5 = 120
  /\ evalRPN state [num 5; fn Fact] = Ok 120
  /\ evalRPN state [num 3.5; fn Fact] = Ok nan
  /\ (forall t, isValue t = true ->
        insertImplicitMultiplication [t; fn Fact] = [t; op Times; fn Fact]
        /\ toRPN2 [t; op Times; fn Fact] = Ok [t; fn Fact; op Times]
        /\ evalRPN state [t; fn Fact; op Times] = Throw BadExpression)
  /\ tokenize (js "5!") = Ok [num 5; op Times; fn Fact]
  /\ evaluateExpression state (js "5!") = Throw BadExpression
  /\ evaluateExpression state (js "3.5!") = Throw BadExpression.
Proof.
  repeat match goal with |- _ /\ _ => split end;
    try (intros t Ht; destruct t as [v | o | b | f | c]; try discriminate Ht;
         repeat split);
    vm_compute; reflexivity.
Qed.

(** ** Domain errors (C6) *)

(** C6.  Given its operands the Evaluator applies every function and every
    binary operator without throwing, whatever the values, so that it
    throws on a postfix sequence only for the stack discipline; "sqrt(-1)",
    "asin(2)", "1/0", "0/0" and the factorial of 3.5 give NaN or Infinity,
    which [formatNumber] renders as "Error"; "0^0" gives 1, rendered "1".
    The native library is taken to follow ECMAScript in [pow(0, 0) = 1] and
    [asin(2) = NaN]. *)
Theorem C6_domain_errors_are_values (M : NativeMath) (state : State) :
  Math_pow 0 0 = 1 ->
  Math_asin 2 = nan ->
  (forall f a st, evalToken state (fn f) (a :: st) = Ok (call state f a :: st))
  /\ (forall o a b st, arity (OP o) = 2%nat ->
        evalToken state (op o) (b :: a :: st) = Ok (binary o a b :: st))
  /\ (forall rpn, stackDepths rpn 0 = true -> exists v, evalRPN state rpn = Ok v)
  /\ evaluateExpression state (js "sqrt(-1)") = Ok nan
  /\ evaluateExpression state (js "asin(2)") = Ok nan
  /\ evaluateExpression state (js "1/0") = Ok infinity
  /\ evaluateExpression state (js "0/0") = Ok nan
  /\ evalRPN state [num 3.5; fn Fact] = Ok nan
  /\ formatNumber nan = js "Error"
  /\ formatNumber infinity = js "Error"
  /\ evaluateExpression state (js "0^0") = Ok 1
  /\ formatNumber 1 = js "1".
Proof.
  intros Hpow Hasin.
  split; [reflexivity |].
  split; [intros o a b st Ho; destruct o; try discriminate Ho; reflexivity |].
  split; [intros rpn; apply (evalRPN_from_returns state rpn []) |].
  split; [vm_compute; reflexivity |].
  split.
  { change (evaluateExpression state (js "asin(2)"))
      with (Ok (trigOut state (Math_asin 2))).
    rewrite Hasin. unfold trigOut. destruct (state_mode state); reflexivity. }
  split; [vm_compute; reflexivity |].
  split; [vm_compute; reflexivity |].
  split; [vm_compute; reflexivity |].
  split; [vm_compute; reflexivity |].
  split; [vm_compute; reflexivity |].
  split; [| vm_compute; reflexivity].
  change (evaluateExpression state (js "0^0")) with (Ok (Math_pow 0 0)).
  rewrite Hpow. reflexivity.
Qed.

Lemma C6_witness :
  Math_pow (NativeMath := sampleMath) 0 0 = 1
  /\ Math_asin (NativeMath := sampleMath) 2 = nan
  /\ evaluateExpression (M := sampleMath) sampleState (js "0^0") = Ok 1
  /\ evaluateExpression (M := sampleMath) sampleState (js "asin(2)") = Ok nan.
Proof.
  split; [reflexivity | split; [reflexivity |]].
  pose proof (C6_domain_errors_are_values sampleMath sampleState eq_refl eq_refl) as H.
  split; apply H.
Defined.

(** ** Number formatting (C8) *)

(** C8.  [formatNumber] is a function of the number alone.  It returns
    "Error" exactly for the non-finite values; it treats -0 as 0, both
    rendered "0"; and for a finite value it is the decimal string of the
    Number read back from [toPrecision(12)], which rounds to 12
    significant digits and leaves no trailing zeros: 0.1 + 0.2 gives "0.3",
    2/3 gives "0.666666666667", 123456789012345 gives "123456789012000",
    1234.5 (1234.50000000 to 12 digits) gives "1234.5". *)
Theorem C8_formatNumber (n : float) :
  (formatNumber n = js "Error" <-> isFinite n = false)
  /\ formatNumber n = formatNumber (if isNegativeZero n then 0 else n)
  /\ formatNumber neg_zero = js "0"
  /\ formatNumber 0 = js "0"
  /\ formatNumber n =
     (if isFinite n
      then toString (Number (toPrecision (if isNegativeZero n then 0 else n) 12))
      else js "Error")
  /\ (toPrecision (0.1 + 0.2) 12 = js "0.300000000000"
      /\ formatNumber (0.1 + 0.2) = js "0.3")
  /\ (toPrecision (2 / 3) 12 = js "0.666666666667"
      /\ formatNumber (2 / 3) = js "0.666666666667")
  /\ (toPrecision 123456789012345 12 = js "1.23456789012e+14"
      /\ formatNumber 123456789012345 = js "123456789012000")
  /\ (toPrecision 1234.5 12 = js "1234.50000000"
      /\ formatNumber 1234.5 = js "1234.5").
Proof.
  split; [| split; [| split; [| split; [| split]]]].
  - unfold formatNumber. destruct (isFinite n); cbn [negb].
    + split; [| discriminate]. intros H. exfalso. exact (toString_not_Error _ H).
    + split; reflexivity.
  - destruct (isNegativeZero n) eqn:Hz; [| reflexivity].
    apply isNegativeZero_eq in Hz. subst n. vm_compute. reflexivity.
  - vm_compute. reflexivity.
  - vm_compute. reflexivity.
  - unfold formatNumber. destruct (isFinite n); cbn [negb]; reflexivity.
  - repeat match goal with |- _ /\ _ => split end; vm_compute; reflexivity.
Qed.

(** * Further properties *)

(** ** The parser *)

Lemma shunt_opens (t : token) (output stack output' stack' : list token) :
  shunt t output stack = Ok (output', stack') ->
  match t with
  | paren true => opens stack' = S (opens stack)
  | paren false => S (opens stack') = opens stack
  | _ => opens stack' = opens stack
  end.
Proof.
  destruct t as [v | o | [|] | f | c]; simpl; intros H.
  - injection H as <- <-. reflexivity.
  - destruct (popOperators o output stack) as [o1 s1] eqn:Hp.
    injection H as <- <-. simpl. eapply popOperators_opens. exact Hp.
  - injection H as <- <-. reflexivity.
  - destruct (popToOpen output stack) as [o1 s1] eqn:Hp.
    apply popToOpen_moves in Hp as (popped & -> & -> & Hn & Hs1).
    rewrite opens_app. apply opens_zero in Hn. rewrite Hn.
    destruct Hs1 as [-> | [rest ->]]; [discriminate |].
    destruct rest as [| [v | o | b | f | c] s2]; injection H as <- <-; reflexivity.
  - destruct f; injection H as <- <-; reflexivity.
  - injection H as <- <-. reflexivity.
Qed.

Lemma drain_balanced (output stack : list token) :
  ~ In (paren false) stack ->
  ((exists rpn, drain output stack = Ok rpn) <-> opens stack = 0%nat).
Proof.
  revert output. induction stack as [| top stack IH]; intros output Hn; simpl.
  - split; eauto.
  - assert (Hn' : ~ In (paren false) stack) by (intros H; apply Hn; right; exact H).
    destruct top as [v | o | [|] | f | c]; try (apply IH; exact Hn').
    + split; [intros [rpn H]; discriminate | discriminate].
    + exfalso. apply Hn. left. reflexivity.
Qed.

Lemma toRPN2_from_balanced (tokens output stack : list token) :
  parserState output stack ->
  ((exists rpn, ('(o, s) <- shuntAll tokens output stack ;; drain o s) = Ok rpn)
   <-> balancedFrom (opens stack) tokens = true).
Proof.
  revert output stack. induction tokens as [| t tokens IH]; intros output stack Hi.
  - simpl. rewrite (drain_balanced output stack (proj2 Hi)). apply iff_sym, Nat.eqb_eq.
  - cbn [shuntAll].
    destruct (shunt t output stack) as [[o s] | err] eqn:Ht; cbn [bind].
    + pose proof (shunt_parserState _ _ _ _ _ Hi Ht) as Hi'.
      rewrite (IH o s Hi'). apply shunt_opens in Ht.
      destruct t as [v | o' | [|] | f | c]; cbn [balancedFrom];
        try rewrite Ht; try reflexivity.
      rewrite <- Ht. reflexivity.
    + apply shunt_throws in Ht as (-> & -> & Hn). apply opens_zero in Hn.
      cbn [balancedFrom]. rewrite Hn.
      split; [intros [rpn H]; discriminate | discriminate].
Qed.

(** X1.  The parser returns a postfix sequence exactly on the token
    sequences with balanced parentheses. *)
Theorem toRPN2_returns_iff_balanced (tokens : list token) :
  (exists rpn, toRPN2 tokens = Ok rpn) <-> balancedFrom 0 tokens = true.
Proof.
  apply (toRPN2_from_balanced tokens [] []). split; [constructor | intros []].
Qed.

Lemma withoutParens_app (a b : list token) :
  withoutParens (a ++ b) = withoutParens a ++ withoutParens b.
Proof. apply filter_app. Qed.

Lemma withoutParens_id (l : list token) :
  Forall (fun t => isParen t = false) l -> withoutParens l = l.
Proof.
  induction 1 as [| t l Ht Hl IH]; simpl; [reflexivity |].
  rewrite Ht. simpl. f_equal. exact IH.
Qed.

(** One round of the parser keeps the tokens of the output and of the
    stack, parentheses apart, and adds the token read. *)
Lemma shunt_permutation (t : token) (output stack output' stack' : list token) :
  shunt t output stack = Ok (output', stack') ->
  Permutation (withoutParens output' ++ withoutParens stack')
              (withoutParens (output ++ [t]) ++ withoutParens stack).
Proof.
  destruct t as [v | o | [|] | f | c]; simpl; intros H.
  - injection H as <- <-. reflexivity.
  - destruct (popOperators o output stack) as [o1 s1] eqn:Hp.
    injection H as <- <-.
    apply popOperators_moves in Hp as (popped & -> & -> & Hf).
    rewrite !withoutParens_app. simpl. rewrite <- !app_assoc.
    apply Permutation_app_head. simpl.
    symmetry. apply Permutation_cons_app. reflexivity.
  - injection H as <- <-. rewrite withoutParens_app. simpl.
    rewrite app_nil_r. reflexivity.
  - destruct (popToOpen output stack) as [o1 s1] eqn:Hp.
    apply popToOpen_moves in Hp as (popped & -> & -> & Hn & Hs1).
    destruct Hs1 as [-> | [rest ->]]; [discriminate |].
    rewrite !withoutParens_app. simpl. rewrite app_nil_r.
    destruct rest as [| [v | o | b | f | c] s2]; injection H as <- <-;
      rewrite ?withoutParens_app; simpl; rewrite <- ?app_assoc; reflexivity.
  - destruct f; injection H as <- <-; rewrite withoutParens_app; simpl;
      rewrite <- ?app_assoc; try reflexivity;
      apply Permutation_app_head; simpl;
      symmetry; apply Permutation_cons_app; reflexivity.
  - injection H as <- <-. reflexivity.
Qed.

Lemma shuntAll_permutation (tokens output stack output' stack' : list token) :
  shuntAll tokens output stack = Ok (output', stack') ->
  Permutation (withoutParens output' ++ withoutParens stack')
              (withoutParens (output ++ tokens) ++ withoutParens stack).
Proof.
  revert output stack. induction tokens as [| t tokens IH]; intros output stack H;
    simpl in H.
  - injection H as <- <-. rewrite app_nil_r. reflexivity.
  - apply bind_Ok in H as ([o s] & Ht & H).
    apply IH in H. apply shunt_permutation in Ht.
    change (t :: tokens) with ([t] ++ tokens). rewrite app_assoc.
    rewrite H, !(withoutParens_app _ tokens), <- !app_assoc.
    etransitivity; [apply Permutation_app_swap_app |].
    etransitivity; [apply Permutation_app_head; exact Ht |].
    apply Permutation_app_swap_app.
Qed.

(** X2.  The postfix sequence is a rearrangement of the tokens read,
    parentheses apart: the parser loses no token and invents none. *)
Theorem toRPN2_permutation (tokens rpn : list token) :
  toRPN2 tokens = Ok rpn -> Permutation rpn (withoutParens tokens).
Proof.
  unfold toRPN2. intros H. apply bind_Ok in H as ([o s] & Hs & Hd).
  pose proof (shuntAll_parserState _ _ _ _ _
                (conj (Forall_nil _) (fun H : In (paren false) [] => H)) Hs) as [Ho _].
  apply shuntAll_permutation in Hs. apply drain_returns in Hd as [-> Hf].
  simpl in Hs. rewrite app_nil_r in Hs.
  rewrite (withoutParens_id o Ho), (withoutParens_id s Hf) in Hs. exact Hs.
Qed.

Lemma toRPN2_permutation_witness :
  toRPN2 [paren true; num 1; op Plus; num 2; paren false; op Times; num 3]
  = Ok [num 1; num 2; op Plus; num 3; op Times]
  /\ Permutation [num 1; num 2; op Plus; num 3; op Times]
       (withoutParens [paren true; num 1; op Plus; num 2; paren false; op Times; num 3]).
Proof.
  split; [reflexivity |].
  apply (toRPN2_permutation
           [paren true; num 1; op Plus; num 2; paren false; op Times; num 3]).
  reflexivity.
Defined.

(** X3.  The numbers and constants come out in the order they were read. *)
Theorem toRPN2_keeps_value_order (tokens rpn : list token) :
  toRPN2 tokens = Ok rpn -> values rpn = values tokens.
Proof.
  unfold toRPN2. intros H. apply bind_Ok in H as ([o s] & Hs & Hd).
  apply shuntAll_values in Hs as [Hs Ho]; [| reflexivity].
  apply drain_returns in Hd as [-> _].
  unfold values in *. rewrite filter_app, Hs, app_nil_r. exact Ho.
Qed.

(** ** The evaluator *)

Section EvaluatorRunFacts.

Context {M : NativeMath}.
Variable state : State.

Lemma evalRPN_from_evalTokens (rpn : list token) (st : list float) :
  evalRPN_from state rpn st =
  (st' <- evalTokens state rpn st ;;
   match st' with
   | [v] => Ok v
   | _ => Throw BadExpression
   end).
Proof.
  revert st. induction rpn as [| t rpn IH]; intros st; simpl.
  - reflexivity.
  - destruct (evalToken state t st) as [st' | err]; simpl; [apply IH | reflexivity].
Qed.

Lemma evalTokens_app (a b : list token) (st : list float) :
  evalTokens state (a ++ b) st = (st' <- evalTokens state a st ;; evalTokens state b st').
Proof.
  revert st. induction a as [| t a IH]; intros st; simpl.
  - reflexivity.
  - destruct (evalToken state t st) as [st' | err]; simpl; [apply IH | reflexivity].
Qed.

(** The values below those a token takes are left alone. *)
Lemma evalToken_frame (t : token) (st st' below : list float) :
  evalToken state t st = Ok st' -> evalToken state t (st ++ below) = Ok (st' ++ below).
Proof.
  destruct t as [v | o | b | f | c]; simpl; intros H.
  - injection H as <-. reflexivity.
  - destruct (Nat.ltb_spec (length st) (arity (OP o))) as [Hlt | Hge]; [discriminate |].
    assert (Hl : (length (st ++ below) <? arity (OP o))%nat = false).
    { apply Nat.ltb_ge. rewrite length_app. lia. }
    rewrite Hl.
    destruct o, st as [| y [| x st1]]; simpl in *; try discriminate; try lia;
      injection H as <-; reflexivity.
  - discriminate.
  - destruct st as [| a st1]; simpl in *; [discriminate |].
    injection H as <-. reflexivity.
  - injection H as <-. reflexivity.
Qed.

Lemma evalTokens_frame (rpn : list token) (st st' below : list float) :
  evalTokens state rpn st = Ok st' ->
  evalTokens state rpn (st ++ below) = Ok (st' ++ below).
Proof.
  revert st. induction rpn as [| t rpn IH]; intros st H; simpl in *.
  - injection H as <-. reflexivity.
  - apply bind_Ok in H as (st1 & Ht & H).
    rewrite (evalToken_frame _ _ _ below Ht). simpl. apply IH. exact H.
Qed.

Lemma evalRPN_evalTokens (rpn : list token) (v : float) :
  evalRPN state rpn = Ok v <-> evalTokens state rpn [] = Ok [v].
Proof.
  unfold evalRPN. rewrite evalRPN_from_evalTokens.
  destruct (evalTokens state rpn []) as [[| w [| w' st]] | err]; simpl;
    split; intros H; try discriminate; injection H as ->; reflexivity.
Qed.

(** X5.  Postfix sequences compose.  After the sequences of two operands,
    a binary operator gives the operation on their values; after the
    sequence of one operand, a unary minus or a function gives its value
    on that operand. *)
Theorem evalRPN_compose (ra rb : list token) (a b : float) :
  evalRPN state ra = Ok a ->
  evalRPN state rb = Ok b ->
  (forall o, arity (OP o) = 2%nat ->
     evalRPN state (ra ++ rb ++ [op o]) = Ok (binary o a b))
  /\ evalRPN state (ra ++ [op UMinus]) = Ok (- a)
  /\ (forall f, evalRPN state (ra ++ [fn f]) = Ok (call state f a)).
Proof.
  intros Ha Hb. apply evalRPN_evalTokens in Ha, Hb.
  repeat split; intros; apply evalRPN_evalTokens;
    rewrite ?evalTokens_app, Ha; cbn [bind].
  - pose proof (evalTokens_frame rb [] [b] [a] Hb) as Hf. cbn [app] in Hf.
    rewrite evalTokens_app, Hf. cbn [bind].
    destruct o; try discriminate; reflexivity.
  - reflexivity.
  - reflexivity.
Qed.

End EvaluatorRunFacts.

(** X6.  The state is read by the tokens that name it only.  Two states
    that agree on the angle mode, or a sequence with no trigonometric
    function, and that agree on the last answer, or a sequence without
    [ans], give the same result. *)
Theorem evalRPN_reads_state (M : NativeMath) (s1 s2 : State) (rpn : list token) :
  state_mode s1 = state_mode s2 \/ Forall (fun t => usesAngleMode t = false) rpn ->
  state_ans s1 = state_ans s2 \/ Forall (fun t => usesAns t = false) rpn ->
  evalRPN s1 rpn = evalRPN s2 rpn.
Proof.
  intros Hm Ha. unfold evalRPN. generalize (@nil float) as st.
  induction rpn as [| t rpn IH]; intros st; simpl; [reflexivity |].
  assert (Ht : evalToken s1 t st = evalToken s2 t st).
  { destruct t as [v | o | b | f | c]; simpl; try reflexivity.
    - destruct st as [| a st]; simpl; [reflexivity |].
      assert (Hc : call s1 f a = call s2 f a); [| rewrite Hc; reflexivity].
      destruct Hm as [Hm | Hm].
      + unfold call, trigIn, trigOut. rewrite Hm. reflexivity.
      + inversion Hm as [| ? ? Hf _]; subst.
        destruct f; try discriminate Hf; reflexivity.
    - destruct Ha as [Ha | Ha].
      + unfold constant. rewrite Ha. reflexivity.
      + inversion Ha as [| ? ? Hc _]; subst.
        destruct c; try discriminate Hc; reflexivity. }
  rewrite Ht. destruct (evalToken s2 t st) as [st' | err]; simpl; [| reflexivity].
  apply IH.
  - destruct Hm as [Hm | Hm]; [left; exact Hm | right; inversion Hm; assumption].
  - destruct Ha as [Ha | Ha]; [left; exact Ha | right; inversion Ha; assumption].
Qed.

Lemma evalRPN_compose_witness :
  evalRPN (M := sampleMath) sampleState [num 1; num 2; op Plus] = Ok 3
  /\ evalRPN (M := sampleMath) sampleState [num 4] = Ok 4
  /\ evalRPN (M := sampleMath) sampleState
       ([num 1; num 2; op Plus] ++ [num 4] ++ [op Times]) = Ok (3 * 4).
Proof.
  split; [reflexivity | split; [reflexivity |]].
  apply (evalRPN_compose (M := sampleMath) sampleState
           [num 1; num 2; op Plus] [num 4] 3 4 eq_refl eq_refl).
  reflexivity.
Defined.

Lemma evalRPN_reads_state_witness :
  evalRPN (M := sampleMath) {| state_ans := 7; state_mode := DEG |}
    [const Ans; num 2; op Times]
  = evalRPN (M := sampleMath) {| state_ans := 7; state_mode := RAD |}
      [const Ans; num 2; op Times].
Proof.
  apply (evalRPN_reads_state sampleMath).
  - right. repeat constructor.
  - left. reflexivity.
Defined.

(** ** The tokenizer *)

Lemma markRound_markFrom (out : list token) (t : token) :
  markRound out t = out ++ markFrom (lastOf out) [t].
Proof.
  unfold markRound. destruct t as [v | [] | b | f | c]; try reflexivity.
  simpl. destruct (lastOf out) as [[v | o | [|] | f | c] |]; reflexivity.
Qed.

Lemma markRounds_markFrom (tokens out : list token) :
  fold_left markRound tokens out = out ++ markFrom (lastOf out) tokens.
Proof.
  revert out. induction tokens as [| t tokens IH]; intros out.
  - simpl. rewrite app_nil_r. reflexivity.
  - cbn [fold_left]. rewrite IH, markRound_markFrom. cbn [markFrom].
    rewrite lastOf_snoc, <- app_assoc. reflexivity.
Qed.

Lemma markUnaryMinus_markFrom (tokens : list token) :
  markUnaryMinus tokens = markFrom None tokens.
Proof.
  change (markUnaryMinus tokens) with (fold_left markRound tokens []).
  apply (markRounds_markFrom tokens []).
Qed.

Lemma markFrom_placed (prev : option token) (tokens : list token) :
  minusPlaced prev (markFrom prev tokens) = true.
Proof.
  revert prev. induction tokens as [| t tokens IH]; intros prev; [reflexivity |].
  cbn [markFrom minusPlaced]. rewrite IH, andb_true_r.
  destruct t as [v | [] | b | f | c]; try reflexivity.
  destruct (operandExpected prev); reflexivity.
Qed.

Lemma markFrom_idempotent (prev : option token) (tokens : list token) :
  markFrom prev (markFrom prev tokens) = markFrom prev tokens.
Proof.
  revert prev. induction tokens as [| t tokens IH]; intros prev; [reflexivity |].
  cbn [markFrom].
  set (t' := match t with
             | op Minus => if operandExpected prev then op UMinus else t
             | _ => t
             end).
  assert (Ht : match t' with
               | op Minus => if operandExpected prev then op UMinus else t'
               | _ => t'
               end = t').
  { subst t'. destruct t as [v | [] | b | f | c]; try reflexivity.
    destruct (operandExpected prev); reflexivity. }
  rewrite Ht. f_equal. apply IH.
Qed.

Lemma markFrom_length (prev : option token) (tokens : list token) :
  length (markFrom prev tokens) = length tokens.
Proof.
  revert prev. induction tokens as [| t tokens IH]; intros prev; simpl;
    [| rewrite IH]; reflexivity.
Qed.

(** X7.  After [markUnaryMinus] no binary minus stands at the start of the
    sequence, after an operator or after an open-paren; the pass keeps the
    length of the sequence and changes nothing when run again. *)
Theorem markUnaryMinus_places_minus (tokens : list token) :
  minusPlaced None (markUnaryMinus tokens) = true
  /\ length (markUnaryMinus tokens) = length tokens
  /\ markUnaryMinus (markUnaryMinus tokens) = markUnaryMinus tokens.
Proof.
  rewrite !markUnaryMinus_markFrom.
  split; [apply markFrom_placed | split; [apply markFrom_length | apply markFrom_idempotent]].
Qed.

Lemma timesBetween_head (t : token) (rest : list token) :
  exists more, timesBetween (t :: rest) = t :: more.
Proof.
  destruct rest as [| B rest]; simpl; [eauto |].
  destruct (leftOperand t && rightOperand B); eauto.
Qed.

Lemma operandsApart_cons (A B : token) (rest : list token) :
  operandsApart (A :: B :: rest)
  = negb (leftOperand A && rightOperand B) && operandsApart (B :: rest).
Proof. reflexivity. Qed.

Lemma timesBetween_apart (tokens : list token) :
  operandsApart (timesBetween tokens) = true.
Proof.
  induction tokens as [| A tokens IH]; [reflexivity |].
  destruct tokens as [| B rest]; [reflexivity |].
  change (timesBetween (A :: B :: rest)) with
    (if leftOperand A && rightOperand B
     then A :: op Times :: timesBetween (B :: rest)
     else A :: timesBetween (B :: rest)).
  destruct (timesBetween_head B rest) as [more Hm]. rewrite Hm in *.
  destruct (leftOperand A && rightOperand B) eqn:Hab.
  - rewrite !operandsApart_cons, IH.
    destruct A as [v | o | [|] | f | c]; reflexivity.
  - rewrite operandsApart_cons, Hab, IH. reflexivity.
Qed.

Lemma timesBetween_fixed (tokens : list token) :
  operandsApart tokens = true -> timesBetween tokens = tokens.
Proof.
  induction tokens as [| A tokens IH]; [reflexivity |].
  destruct tokens as [| B rest]; [reflexivity |].
  rewrite operandsApart_cons. intros H. apply andb_prop in H as [Hab H].
  apply negb_true_iff in Hab.
  change (timesBetween (A :: B :: rest)) with
    (if leftOperand A && rightOperand B
     then A :: op Times :: timesBetween (B :: rest)
     else A :: timesBetween (B :: rest)).
  rewrite Hab, (IH H). reflexivity.
Qed.

(** X8.  After [insertImplicitMultiplication] no number, constant or
    close-paren is directly followed by a number, constant, function or
    open-paren, and the pass changes nothing when run again. *)
Theorem insertImplicitMultiplication_separates (tokens : list token) :
  operandsApart (insertImplicitMultiplication tokens) = true
  /\ insertImplicitMultiplication (insertImplicitMultiplication tokens)
     = insertImplicitMultiplication tokens.
Proof.
  rewrite !insertImplicitMultiplication_timesBetween.
  split; [apply timesBetween_apart |].
  apply timesBetween_fixed, timesBetween_apart.
Qed.

Lemma scan_finite (s : jsstring) (skip : nat) (out tokens : list token) :
  Forall finiteNumber out -> scan skip s out = Ok tokens -> Forall finiteNumber tokens.
Proof.
  revert skip out. induction s as [| c s IH]; intros skip out Ho H.
  - injection H as <-. exact Ho.
  - cbn [scan] in H. destruct skip as [| k]; [| eapply IH; eassumption].
    assert (Hsnoc : forall t, finiteNumber t -> Forall finiteNumber (out ++ [t])).
    { intros t Ht. apply Forall_app. auto. }
    destruct (isDigit c || isDot c).
    { destruct (isFinite (Number (scanNumber 0 (c :: s)))) eqn:Hfin; cbn [negb] in H;
        [| discriminate].
      eapply IH; [| exact H]. apply Hsnoc. exact Hfin. }
    destruct ((c =? 40) || (c =? 41))%N.
    { eapply IH; [| exact H]. apply Hsnoc. exact I. }
    destruct (operatorOf c) as [o |].
    { eapply IH; [| exact H]. apply Hsnoc. exact I. }
    destruct (isAlpha c).
    { apply bind_Ok in H as (t & Hid & H). eapply IH; [| exact H]. apply Hsnoc.
      unfold identifier in Hid.
      repeat match type of Hid with
             | (if ?b then _ else _) = _ => destruct b
             | match ?x with _ => _ end = _ => destruct x
             end; try discriminate; injection Hid as <-; exact I. }
    destruct (c =? 33)%N; [| discriminate].
    eapply IH; [| exact H]. apply Hsnoc. exact I.
Qed.

Lemma markFrom_finite (prev : option token) (tokens : list token) :
  Forall finiteNumber tokens -> Forall finiteNumber (markFrom prev tokens).
Proof.
  intros H. revert prev. induction H as [| t tokens Ht _ IH]; intros prev;
    cbn [markFrom]; constructor; [| apply IH].
  destruct t as [v | [] | b | f | c]; try exact Ht.
  destruct (operandExpected prev); exact I.
Qed.

Lemma timesBetween_finite (tokens : list token) :
  Forall finiteNumber tokens -> Forall finiteNumber (timesBetween tokens).
Proof.
  induction 1 as [| A tokens HA Ht IH]; [constructor |].
  destruct tokens as [| B rest]; [constructor; [exact HA | constructor] |].
  change (timesBetween (A :: B :: rest)) with
    (if leftOperand A && rightOperand B
     then A :: op Times :: timesBetween (B :: rest)
     else A :: timesBetween (B :: rest)).
  destruct (leftOperand A && rightOperand B); repeat constructor; assumption.
Qed.

(** X9.  Every number token of an accepted input holds a finite value. *)
Theorem tokenize_numbers_finite (raw : jsstring) (tokens : list token) (v : float) :
  tokenize raw = Ok tokens -> In (num v) tokens -> isFinite v = true.
Proof.
  unfold tokenize. intros H Hin. apply bind_Ok in H as (out & Hs & H).
  injection H as <-.
  apply scan_finite in Hs; [| constructor].
  rewrite insertImplicitMultiplication_timesBetween, markUnaryMinus_markFrom in Hin.
  pose proof (timesBetween_finite _ (markFrom_finite None _ Hs)) as Hf.
  rewrite Forall_forall in Hf. exact (Hf _ Hin).
Qed.

Lemma tokenize_numbers_finite_witness :
  tokenize (js "2.5*3") = Ok [num 2.5; op Times; num 3]
  /\ In (num 2.5) [num 2.5; op Times; num 3]
  /\ isFinite 2.5 = true.
Proof.
  split; [reflexivity | split; [left; reflexivity |]].
  apply (tokenize_numbers_finite (js "2.5*3") [num 2.5; op Times; num 3] 2.5);
    [reflexivity | left; reflexivity].
Defined.

(** X4.  A binary operator between two operands gives its operation, and of
    two binary operators among three operands the first is applied first
    exactly when the test [popsOperator] of the parser says so (same or
    higher precedence for a left-associative second operator, higher for
    [^]); a unary minus in front negates the first operand, except before
    [^], where it negates the power. *)
Theorem precedence_on_three_operands
  (M : NativeMath) (state : State) (o1 o2 : opsym) (a b c : float) :
  arity (OP o1) = 2%nat -> arity (OP o2) = 2%nat ->
  (rpn <- toRPN2 [num a; op o1; num b] ;; evalRPN state rpn) = Ok (binary o1 a b)
  /\ (rpn <- toRPN2 [num a; op o1; num b; op o2; num c] ;; evalRPN state rpn)
     = Ok (if popsOperator o2 o1 then binary o2 (binary o1 a b) c
           else binary o1 a (binary o2 b c))
  /\ (rpn <- toRPN2 [paren true; num a; op o1; num b; paren false; op o2; num c] ;;
      evalRPN state rpn) = Ok (binary o2 (binary o1 a b) c)
  /\ (rpn <- toRPN2 [num a; op o1; paren true; num b; op o2; num c; paren false] ;;
      evalRPN state rpn) = Ok (binary o1 a (binary o2 b c))
  /\ (rpn <- toRPN2 [op UMinus; num a; op o1; num b] ;; evalRPN state rpn)
     = Ok (match o1 with
           | Caret => - Math_pow a b
           | _ => binary o1 (- a) b
           end).
Proof.
  intros H1 H2.
  destruct o1; try discriminate H1; destruct o2; try discriminate H2;
    repeat split.
Qed.

Lemma precedence_on_three_operands_witness :
  arity (OP Plus) = 2%nat /\ arity (OP Times) = 2%nat
  /\ (rpn <- toRPN2 [num 1; op Plus; num 2; op Times; num 3] ;;
      evalRPN (M := sampleMath) sampleState rpn) = Ok (1 + 2 * 3).
Proof.
  split; [reflexivity | split; [reflexivity |]].
  apply (precedence_on_three_operands sampleMath sampleState Plus Times 1 2 3);
    reflexivity.
Defined.

Lemma scanNumber_units (dot : nat) (s : jsstring) :
  Forall (fun c => lexable c = true) (scanNumber dot s)
  /\ exists n, scanNumber dot s = firstn n s.
Proof.
  revert dot. induction s as [| c s IH]; intros dot; cbn [scanNumber].
  - split; [constructor | exists 0%nat; reflexivity].
  - destruct (isDigit c || isDot c) eqn:Hc; [| split; [constructor | exists 0%nat; reflexivity]].
    destruct (1 <? (if isDot c then S dot else dot))%nat;
      [split; [constructor | exists 0%nat; reflexivity] |].
    destruct (IH (if isDot c then S dot else dot)) as [Hf [n Hn]]. split.
    + constructor; [| exact Hf]. unfold lexable.
      apply orb_prop in Hc as [-> | ->]; rewrite ?orb_true_r; reflexivity.
    + exists (S n). rewrite Hn at 1. reflexivity.
Qed.

Lemma scanAlpha_units (s : jsstring) :
  Forall (fun c => lexable c = true) (scanAlpha s)
  /\ exists n, scanAlpha s = firstn n s.
Proof.
  induction s as [| c s [Hf [n Hn]]]; cbn [scanAlpha].
  - split; [constructor | exists 0%nat; reflexivity].
  - destruct (isAlpha c) eqn:Hc; [| split; [constructor | exists 0%nat; reflexivity]].
    split.
    + constructor; [| exact Hf]. unfold lexable. rewrite Hc, ?orb_true_r. reflexivity.
    + exists (S n). rewrite Hn at 1. reflexivity.
Qed.

(** The units of a slice, its first apart, are the first units of the
    rest, and are passed over. *)
Lemma slice_passed (c : N) (p s : jsstring) (n : nat) :
  Forall (fun c => lexable c = true) (c :: p) ->
  c :: p = firstn n (c :: s) ->
  Forall (fun c => lexable c = true) (skipn (Nat.pred (length (c :: p))) s) ->
  Forall (fun c => lexable c = true) (c :: s).
Proof.
  intros Hf Hn Hs. destruct n as [| n]; [discriminate |].
  cbn [firstn] in Hn. injection Hn as Hp. cbn [length Nat.pred] in Hs.
  inversion Hf as [| ? ? Hc Hp']; subst. constructor; [exact Hc |].
  rewrite <- (firstn_skipn (length (firstn n s)) s).
  apply Forall_app. split; [| exact Hs].
  rewrite length_firstn, <- firstn_firstn, firstn_all. exact Hp'.
Qed.

Lemma scan_units (s : jsstring) (skip : nat) (out tokens : list token) :
  scan skip s out = Ok tokens -> Forall (fun c => lexable c = true) (skipn skip s).
Proof.
  revert skip out. induction s as [| c s IH]; intros skip out H.
  - destruct skip; constructor.
  - cbn [scan] in H. destruct skip as [| k]; [| cbn [skipn]; eapply IH; exact H].
    cbn [skipn].
    destruct (isDigit c || isDot c) eqn:Hd.
    { destruct (negb (isFinite (Number (scanNumber 0 (c :: s))))); [discriminate |].
      apply IH in H. destruct (scanNumber_units 0 (c :: s)) as [Hf [n Hn]].
      remember (scanNumber 0 (c :: s)) as numStr eqn:Hnum.
      cbn [scanNumber] in Hnum. rewrite Hd in Hnum.
      destruct (1 <? (if isDot c then 1 else 0))%nat eqn:Hdot;
        [destruct (isDot c); discriminate Hdot |].
      subst numStr. eapply slice_passed; eassumption. }
    assert (Hone : lexable c = true -> Forall (fun c => lexable c = true) s ->
                   Forall (fun c => lexable c = true) (c :: s))
      by (intros; constructor; assumption).
    destruct ((c =? 40) || (c =? 41))%N eqn:Hp.
    { apply IH in H. apply Hone; [| exact H]. unfold lexable.
      apply orb_prop in Hp as [-> | ->]; rewrite ?orb_true_r; reflexivity. }
    destruct (operatorOf c) as [o |] eqn:Ho.
    { apply IH in H. apply Hone; [| exact H]. unfold lexable.
      rewrite Ho, ?orb_true_r. reflexivity. }
    destruct (isAlpha c) eqn:Ha.
    { apply bind_Ok in H as (t & _ & H). apply IH in H.
      destruct (scanAlpha_units (c :: s)) as [Hf [n Hn]].
      remember (scanAlpha (c :: s)) as id eqn:Hid.
      cbn [scanAlpha] in Hid. rewrite Ha in Hid. subst id.
      eapply slice_passed; eassumption. }
    destruct (c =? 33)%N eqn:Hb; [| discriminate].
    apply IH in H. apply Hone; [| exact H]. unfold lexable.
    rewrite Hb, ?orb_true_r. reflexivity.
Qed.

(** X10.  An accepted input, once normalised and without its spaces, is made
    of digits, dots, letters, parentheses, operator signs and [!]. *)
Theorem tokenize_alphabet (raw : jsstring) (tokens : list token) :
  tokenize raw = Ok tokens ->
  Forall (fun c => lexable c = true) (JSString.stripSpaces (normalizeInput raw)).
Proof.
  unfold tokenize. intros H. apply bind_Ok in H as (out & Hs & _).
  apply (scan_units _ 0 [] out Hs).
Qed.

Lemma tokenize_alphabet_witness :
  tokenize (js "2 * sin(30)") = Ok [num 2; op Times; fn Sin; paren true; num 30; paren false]
  /\ Forall (fun c => lexable c = true)
       (JSString.stripSpaces (normalizeInput (js "2 * sin(30)"))).
Proof.
  split; [reflexivity |].
  apply (tokenize_alphabet (js "2 * sin(30)")
           [num 2; op Times; fn Sin; paren true; num 30; paren false]).
  reflexivity.
Defined.

(** ** Factorial and strings *)

(** X12.  [factorial] is exact up to 22: at the Number [k], for [k <= 22],
    it returns the Number of the integer [k!], and that Number is the
    integer [k!] itself, with its sign. *)
Theorem factorial_exact_to_22 (k : nat) :
  (k <= 22)%nat ->
  factorial (ofZ (Z.of_nat k)) = ofZ (Zfactorial k)
  /\ isInteger (factorial (ofZ (Z.of_nat k))) (Zfactorial k).
Proof.
  intros H.
  do 23 (destruct k as [| k]; [split; vm_compute; reflexivity |]). lia.
Qed.

Lemma factorial_exact_to_22_witness :
  (5 <= 22)%nat /\ factorial 5 = 120 /\ isInteger (factorial 5) 120
  /\ ~ isInteger (- factorial 5) 120.
Proof.
  split; [lia |].
  destruct (factorial_exact_to_22 5) as [He Hi]; [lia |].
  split; [exact He | split; [exact Hi |]].
  vm_compute. discriminate.
Defined.

(** From 23 on the product is rounded: the result at 23 is not 23!. *)
Lemma factorial_23_rounded :
  fraction (factorial 23) = (25852016738884978212864, 1)%Z
  /\ Zfactorial 23 = 25852016738884976640000%Z.
Proof. split; vm_compute; reflexivity. Qed.

Lemma factorial_loop_fuel_witness :
  (170 <? 170) = false
  /\ factorial_loop (169 + 31) 2 1 170 = factorial_loop 169 2 1 170.
Proof.
  split; [reflexivity |]. apply (factorial_loop_fuel 170 31). reflexivity.
Defined.

(** ** Strings *)

Lemma replaceAll_unit (c : N) (rep s : jsstring) :
  JSString.replaceAll [c] rep s
  = flat_map (fun x => if (c =? x)%N then rep else [x]) s.
Proof.
  unfold JSString.replaceAll. induction s as [| x s IH]; [reflexivity |].
  cbn [JSString.replaceAll_from JSString.startsWith flat_map length Nat.pred].
  rewrite andb_true_r. destruct (c =? x)%N; rewrite IH; reflexivity.
Qed.

Lemma replaceAll_unit_In (c : N) (rep s : jsstring) (x : N) :
  In x (JSString.replaceAll [c] rep s) <->
  (In x s /\ x <> c) \/ (In c s /\ In x rep).
Proof.
  rewrite replaceAll_unit, in_flat_map. split.
  - intros (y & Hy & Hx). destruct (N.eqb_spec c y) as [<- | Hne].
    + right. auto.
    + destruct Hx as [<- | []]. left. auto.
  - intros [[Hx Hne] | [Hc Hx]].
    + exists x. split; [exact Hx |].
      destruct (N.eqb_spec c x) as [Heq | _]; [congruence | left; reflexivity].
    + exists c. split; [exact Hc |]. rewrite N.eqb_refl. exact Hx.
Qed.

(** X14.  The result of [escapeHtml] holds no [<] and no [>], and a string
    without [&], [<] and [>] is returned as it is. *)
Theorem escapeHtml_no_angle_bracket (s : jsstring) :
  ~ In 60%N (escapeHtml s) /\ ~ In 62%N (escapeHtml s)
  /\ (~ In 38%N s -> ~ In 60%N s -> ~ In 62%N s -> escapeHtml s = s).
Proof.
  unfold escapeHtml.
  change (js ">") with [62%N]. change (js "<") with [60%N]. change (js "&") with [38%N].
  repeat split.
  - intros H. apply replaceAll_unit_In in H as [[H _] | [_ H]].
    + apply replaceAll_unit_In in H as [[_ H] | [_ H]]; [congruence |].
      vm_compute in H. intuition discriminate.
    + vm_compute in H. intuition discriminate.
  - intros H. apply replaceAll_unit_In in H as [[_ H] | [_ H]]; [congruence |].
    vm_compute in H. intuition discriminate.
  - intros Ha Hl Hg.
    assert (Hid : forall c rep t, ~ In c t -> JSString.replaceAll [c] rep t = t).
    { intros c rep t Hc. rewrite replaceAll_unit.
      induction t as [| x t IH]; [reflexivity |]. simpl.
      destruct (N.eqb_spec c x) as [-> | _].
      - exfalso. apply Hc. left. reflexivity.
      - rewrite IH; [reflexivity |]. intros Hin. apply Hc. right. exact Hin. }
    rewrite (Hid 38%N _ s Ha), (Hid 60%N _ s Hl), (Hid 62%N _ s Hg). reflexivity.
Qed.

(** X11.  [normalizeInput] leaves none of the display symbols (the
    multiplication sign, the division sign, the minus sign and the letter
    pi) in the string. *)
Theorem normalizeInput_no_display_symbol (raw : jsstring) (c : N) :
  In c [215; 247; 8722; 960]%N -> ~ In c (normalizeInput raw).
Proof.
  intros Hc Hin. unfold normalizeInput in Hin.
  assert (Hans : forall t x, In x (JSString.replaceAll (js "Ans") (js "ans") t) ->
                 In x t \/ In x (js "ans")).
  { unfold JSString.replaceAll. intros t x. generalize 0%nat as skip.
    induction t as [| y t IH]; intros skip H; [destruct H |].
    cbn [JSString.replaceAll_from] in H. destruct skip as [| k].
    - destruct (JSString.startsWith (js "Ans") (y :: t)).
      + apply in_app_or in H as [H | H]; [right; exact H |].
        apply IH in H as [H | H]; [left; right; exact H | right; exact H].
      + destruct H as [<- | H]; [left; left; reflexivity |].
        apply IH in H as [H | H]; [left; right; exact H | right; exact H].
    - apply IH in H as [H | H]; [left; right; exact H | right; exact H]. }
  apply Hans in Hin as [Hin | Hin];
    [| vm_compute in Hin; vm_compute in Hc; intuition congruence].
  apply replaceAll_unit_In in Hin as [[Hin Hpi] | [_ Hin]];
    [| vm_compute in Hin; vm_compute in Hc; intuition congruence].
  apply replaceAll_unit_In in Hin as [[Hin Hminus] | [_ Hin]];
    [| vm_compute in Hin; vm_compute in Hc; intuition congruence].
  apply replaceAll_unit_In in Hin as [[Hin Hdiv] | [_ Hin]];
    [| vm_compute in Hin; vm_compute in Hc; intuition congruence].
  apply replaceAll_unit_In in Hin as [[Hin Htimes] | [_ Hin]];
    [| vm_compute in Hin; vm_compute in Hc; intuition congruence].
  simpl in Hc. intuition congruence.
Qed.

Lemma normalizeInput_no_display_symbol_witness :
  In 215%N [215; 247; 8722; 960]%N
  /\ normalizeInput [50; 215; 960]%N = js "2*pi"
  /\ ~ In 215%N (normalizeInput [50; 215; 960]%N).
Proof.
  split; [left; reflexivity | split; [reflexivity |]].
  apply (normalizeInput_no_display_symbol [50; 215; 960]%N 215%N). left. reflexivity.
Defined.

(** ** Session *)

Lemma JSString_eqb_eq (a b : jsstring) : JSString.eqb a b = true <-> a = b.
Proof.
  revert b. induction a as [| x a IH]; intros [| y b]; simpl;
    try (split; [discriminate | discriminate]); [tauto |].
  rewrite andb_true_iff, N.eqb_eq, IH. split; [intros [-> ->]; reflexivity |].
  intros H. injection H as -> ->. auto.
Qed.

Lemma formatNumber_finite (v : float) :
  formatNumber v <> js "Error" -> isFinite v = true.
Proof.
  unfold formatNumber. destruct (isFinite v); cbn [negb]; [reflexivity |].
  intros H. exfalso. apply H. reflexivity.
Qed.

Lemma removelast_length {A : Type} (l : list A) :
  length (removelast l) = Nat.pred (length l).
Proof.
  induction l as [| x [| y l] IH]; try reflexivity.
  change (removelast (x :: y :: l)) with (x :: removelast (y :: l)).
  cbn [length]. rewrite IH. reflexivity.
Qed.

(** The state after [addHistory]. *)
Lemma addHistory_keeps (st : AppState) (e result : jsstring) :
  (length (history st) <= 18)%nat ->
  (length (history (addHistory st e result)) <= 18)%nat
  /\ hd_error (history (addHistory st e result)) = Some (e, result)
  /\ ans (addHistory st e result) = ans st
  /\ expr (addHistory st e result) = expr st.
Proof.
  intros H. unfold addHistory. cbn [history ans expr].
  destruct (Nat.ltb_spec 18 (length ((e, result) :: history st))) as [Hlt | Hge].
  - rewrite removelast_length. cbn [length] in *. repeat split; [lia |].
    destruct (history st); [cbn [length] in Hlt; lia | reflexivity].
  - repeat split. exact Hge.
Qed.


(** X15.  [addHistory] keeps the history within 18 entries, the new entry
    first, and leaves the expression and the last answer alone. *)
Theorem addHistory_bounded (st : AppState) (e result : jsstring) :
  (length (history st) <= 18)%nat ->
  (length (history (addHistory st e result)) <= 18)%nat
  /\ hd_error (history (addHistory st e result)) = Some (e, result)
  /\ ans (addHistory st e result) = ans st
  /\ expr (addHistory st e result) = expr st.
Proof. apply addHistory_keeps. Qed.

Lemma addHistory_bounded_witness :
  (length (history {| expr := js "1+1"; ans := 0; mode := DEG; second := false;
                      history := repeat (js "1", js "1") 18 |}) <= 18)%nat
  /\ length (history (addHistory
                {| expr := js "1+1"; ans := 0; mode := DEG; second := false;
                   history := repeat (js "1", js "1") 18 |} (js "1+1") (js "2"))) = 18%nat
  /\ (length (history (addHistory
                {| expr := js "1+1"; ans := 0; mode := DEG; second := false;
                   history := repeat (js "1", js "1") 18 |} (js "1+1") (js "2"))) <= 18)%nat.
Proof.
  split; [vm_compute; lia | split; [reflexivity |]].
  apply (addHistory_bounded
           {| expr := js "1+1"; ans := 0; mode := DEG; second := false;
              history := repeat (js "1", js "1") 18 |} (js "1+1") (js "2")).
  vm_compute. lia.
Defined.

Section SessionFacts.

Context {M : NativeMath}.

(** X16.  [eq] keeps the expression and the mode, keeps the last answer
    finite and the history within 18 entries, and when it shows "Error"
    it leaves the last answer and the history as they were. *)
Theorem equals_commits_finite_results (st : AppState) (d : Display) :
  isFinite (ans st) = true ->
  (length (history st) <= 18)%nat ->
  let st' := fst (equals (st, d)) in
  let d' := snd (equals (st, d)) in
  expr st' = expr st /\ mode st' = mode st
  /\ isFinite (ans st') = true
  /\ (length (history st') <= 18)%nat
  /\ (resultText d' = js "Error" -> ans st' = ans st /\ history st' = history st).
Proof.
  intros Hfin Hlen. unfold equals.
  destruct (trim (expr st)) as [| c s]; [cbn; auto 6 |].
  destruct (evaluateExpression (engineState st) (expr st)) as [val | err];
    [| cbn; auto 6].
  destruct (JSString.eqb (formatNumber val) (js "Error")) eqn:He; cbn [negb fst snd].
  - cbn. auto 6.
  - assert (Hne : formatNumber val <> js "Error").
    { intros H. apply JSString_eqb_eq in H. congruence. }
    set (st1 := {| expr := expr st; ans := val; mode := mode st;
                   second := second st; history := history st |}).
    destruct (addHistory_keeps st1 (expr st1) (formatNumber val) Hlen)
      as (Hb & _ & Ha & Hx).
    cbn [fst snd]. split; [exact Hx | split; [reflexivity |]].
    split; [rewrite Ha; apply formatNumber_finite; exact Hne |].
    split; [exact Hb |].
    intros H. exfalso. apply Hne. exact H.
Qed.

(** X17.  On an expression that evaluates to a finite value, [eq] stores the
    value as the last answer, shows its formatted form and puts the
    expression with it at the front of the history. *)
Theorem equals_stores_value (st : AppState) (d : Display) (val : float) :
  trim (expr st) <> [] ->
  evaluateExpression (engineState st) (expr st) = Ok val ->
  isFinite val = true ->
  let st' := fst (equals (st, d)) in
  let d' := snd (equals (st, d)) in
  ans st' = val
  /\ resultText d' = formatNumber val
  /\ ansPillText d' = js "Ans: " ++ formatNumber val
  /\ hd_error (history st') = Some (expr st, formatNumber val).
Proof.
  intros Hb Hv Hfin. unfold equals.
  destruct (trim (expr st)) as [| c s]; [contradiction |].
  rewrite Hv.
  assert (He : JSString.eqb (formatNumber val) (js "Error") = false).
  { destruct (JSString.eqb (formatNumber val) (js "Error")) eqn:He; [| reflexivity].
    apply JSString_eqb_eq in He. unfold formatNumber in He. rewrite Hfin in He.
    cbn [negb] in He. exfalso. exact (toString_not_Error _ He). }
  rewrite He. cbn [negb fst snd].
  set (st1 := {| expr := expr st; ans := val; mode := mode st;
                 second := second st; history := history st |}).
  repeat split.
  unfold addHistory. cbn [history].
  destruct (history st1) as [| h0 hs]; [reflexivity |].
  destruct (18 <? length ((expr st1, formatNumber val) :: h0 :: hs))%nat;
    reflexivity.
Qed.

(** X18.  The live preview never puts "Error" in the result: the display
    after [preview] shows "Error" only if it did before. *)
Theorem preview_result (st : AppState) (d : Display) :
  resultText d <> js "Error" -> resultText (preview st d) <> js "Error".
Proof.
  intros H. unfold preview. destruct (rev (trim (expr st))) as [| last s].
  - discriminate.
  - destruct (includes _ last); [exact H |].
    destruct (evaluateExpression (engineState st) (trim (expr st))) as [val | err];
      [| exact H].
    destruct (JSString.eqb (formatNumber val) (js "Error")) eqn:He; cbn [negb];
      [exact H |].
    unfold setResult. cbn [resultText].
    intros Hf. apply JSString_eqb_eq in Hf. congruence.
Qed.

Lemma append_expr (text : jsstring) (sd : AppState * Display) :
  expr (fst (append text sd)) = expr (fst sd) ++ text
  /\ ans (fst (append text sd)) = ans (fst sd)
  /\ history (fst (append text sd)) = history (fst sd).
Proof. destruct sd as [st d]. repeat split. Qed.

Lemma count_occ_snoc (s t : jsstring) (c : N) :
  count_occ N.eq_dec (s ++ t) c = (count_occ N.eq_dec s c + count_occ N.eq_dec t c)%nat.
Proof. apply count_occ_app. Qed.

(** X19.  [toggleParen] adds one parenthesis and never lets the close-parens
    outnumber the open-parens. *)
Theorem toggleParen_keeps_balance (sd : AppState * Display) :
  (count_occ N.eq_dec (expr (fst sd)) 41%N
   <= count_occ N.eq_dec (expr (fst sd)) 40%N)%nat ->
  let s' := expr (fst (toggleParen sd)) in
  (count_occ N.eq_dec s' 41%N <= count_occ N.eq_dec s' 40%N)%nat
  /\ (s' = expr (fst sd) ++ js ")" \/ s' = expr (fst sd) ++ js "("
      \/ s' = expr (fst sd) ++ [215; 40]%N).
Proof.
  intros H. unfold toggleParen.
  set (s := expr (fst sd)) in *.
  destruct (hd_error (rev (trim s))) as [c |].
  - destruct (Nat.ltb_spec (count_occ N.eq_dec s 41%N) (count_occ N.eq_dec s 40%N))
      as [Hlt | Hge]; cbn [andb].
    + destruct (negb (includes [40; 41; 43; 45; 215; 247; 94]%N c) && negb (c =? 40)%N).
      * destruct (append_expr (js ")") sd) as [-> _]. fold s.
        rewrite !count_occ_snoc. split; [simpl; lia | auto].
      * destruct (rev s) as [| c' r];
          [| destruct (isDigit c' || includes [41; 93; 101; 960]%N c')];
          match goal with
          | |- context [append ?t sd] => destruct (append_expr t sd) as [-> _]
          end; fold s; rewrite !count_occ_snoc; (split; [simpl; lia | auto]).
    + destruct (rev s) as [| c' r];
        [| destruct (isDigit c' || includes [41; 93; 101; 960]%N c')];
        match goal with
        | |- context [append ?t sd] => destruct (append_expr t sd) as [-> _]
        end; fold s; rewrite !count_occ_snoc; (split; [simpl; lia | auto]).
  - destruct (rev s) as [| c' r];
      [| destruct (isDigit c' || includes [41; 93; 101; 960]%N c')];
      match goal with
      | |- context [append ?t sd] => destruct (append_expr t sd) as [-> _]
      end; fold s; rewrite !count_occ_snoc; (split; [simpl; lia | auto]).
Qed.

End SessionFacts.

Lemma charAt_Some (s : jsstring) (i : Z) (c : N) :
  charAt s i = Some c -> (0 <= i < Z.of_nat (length s))%Z.
Proof.
  unfold charAt. destruct (Z.ltb_spec i 0) as [Hlt | Hge]; [discriminate |].
  intros H. assert (Hn : nth_error s (Z.to_nat i) <> None) by congruence.
  apply nth_error_Some in Hn. lia.
Qed.

Lemma charAt_negative (s : jsstring) (i : Z) : (i < 0)%Z -> charAt s i = None.
Proof. unfold charAt. intros H. destruct (Z.ltb_spec i 0); [reflexivity | lia]. Qed.

(** The three backward loops of [extractLastAtom] end before their fuel:
    from an index below the fuel, more fuel changes nothing. *)
Lemma skipBlanksBack_fuel (fuel extra : nat) (s : jsstring) (i : Z) :
  (i < Z.of_nat fuel)%Z ->
  skipBlanksBack (fuel + extra) s i = skipBlanksBack fuel s i.
Proof.
  revert i. induction fuel as [| fuel IH]; intros i Hi.
  - cbn [Nat.add skipBlanksBack]. destruct extra; cbn [skipBlanksBack];
      [reflexivity |]. rewrite charAt_negative by lia. reflexivity.
  - cbn [Nat.add skipBlanksBack]. destruct (charAt s i) as [c |]; [| reflexivity].
    destruct (c =? 32)%N; [| reflexivity]. apply IH. lia.
Qed.

Lemma findOpen_fuel (fuel extra : nat) (s : jsstring) (j depth : Z) :
  (j < Z.of_nat fuel)%Z ->
  findOpen (fuel + extra) s j depth = findOpen fuel s j depth.
Proof.
  revert j depth. induction fuel as [| fuel IH]; intros j depth Hj.
  - cbn [Nat.add findOpen]. destruct extra; cbn [findOpen]; [reflexivity |].
    rewrite charAt_negative by lia. reflexivity.
  - cbn [Nat.add findOpen]. destruct (charAt s j) as [c |]; [| reflexivity].
    destruct (c =? 41)%N; [apply IH; lia |].
    destruct (c =? 40)%N; [| apply IH; lia].
    destruct (depth - 1 =? 0)%Z; [reflexivity | apply IH; lia].
Qed.

Lemma skipNumberBack_fuel (fuel extra : nat) (s : jsstring) (j : Z) :
  (j < Z.of_nat fuel)%Z ->
  skipNumberBack (fuel + extra) s j = skipNumberBack fuel s j.
Proof.
  revert j. induction fuel as [| fuel IH]; intros j Hj.
  - cbn [Nat.add skipNumberBack]. destruct extra; cbn [skipNumberBack];
      [reflexivity |]. rewrite charAt_negative by lia. reflexivity.
  - cbn [Nat.add skipNumberBack]. destruct (charAt s j) as [c |]; [| reflexivity].
    destruct (isDigit c || isDot c); [| reflexivity]. apply IH. lia.
Qed.

Lemma skipBlanksBack_le (fuel : nat) (s : jsstring) (i : Z) :
  (skipBlanksBack fuel s i <= i)%Z.
Proof.
  revert i. induction fuel as [| fuel IH]; intros i; cbn [skipBlanksBack]; [lia |].
  destruct (charAt s i) as [c |]; [| lia].
  destruct (c =? 32)%N; [| lia]. specialize (IH (i - 1)%Z). lia.
Qed.

Lemma findOpen_found (fuel : nat) (s : jsstring) (j depth start : Z) :
  findOpen fuel s j depth = Some start ->
  (0 <= start <= j)%Z /\ charAt s start = Some 40%N.
Proof.
  revert j depth. induction fuel as [| fuel IH]; intros j depth H;
    cbn [findOpen] in H; [discriminate |].
  destruct (charAt s j) as [c |] eqn:Hc; [| discriminate].
  pose proof (charAt_Some _ _ _ Hc) as Hj.
  destruct (c =? 41)%N.
  - apply IH in H. split; [lia | tauto].
  - destruct (N.eqb_spec c 40) as [-> | Hne].
    + destruct (depth - 1 =? 0)%Z.
      * injection H as <-. split; [lia | exact Hc].
      * apply IH in H. split; [lia | tauto].
    + apply IH in H. split; [lia | tauto].
Qed.

Lemma skipNumberBack_range (fuel : nat) (s : jsstring) (j : Z) :
  (-1 <= j)%Z ->
  (-1 <= skipNumberBack fuel s j <= j)%Z
  /\ forall k, (skipNumberBack fuel s j < k <= j)%Z ->
       exists c, charAt s k = Some c /\ isDigit c || isDot c = true.
Proof.
  revert j. induction fuel as [| fuel IH]; intros j Hj; cbn [skipNumberBack].
  - split; [lia | intros k Hk; lia].
  - destruct (charAt s j) as [c |] eqn:Hc; [| split; [lia | intros k Hk; lia]].
    pose proof (charAt_Some _ _ _ Hc) as Hb.
    destruct (isDigit c || isDot c) eqn:Hd; [| split; [lia | intros k Hk; lia]].
    destruct (IH (j - 1)%Z ltac:(lia)) as [Hr Hk]. split; [lia |].
    intros k Hkj. destruct (Z.eq_dec k j) as [-> | Hne]; [eauto |].
    apply Hk. lia.
Qed.

Lemma endsWith_length (s t : jsstring) :
  endsWith s t = true -> (length t <= length s)%nat.
Proof.
  unfold endsWith. rewrite <- (length_rev s), <- (length_rev t).
  generalize (rev s) as a. generalize (rev t) as b.
  induction b as [| x b IH]; intros [| y a]; simpl; intros H;
    try lia; try discriminate.
  apply andb_prop in H as [_ H]. apply IH in H. lia.
Qed.

(** X20.  The indices returned by [extractLastAtom] lie in the string, the
    start not after the end, and an atom that ends with a close-paren
    starts with an open-paren. *)
Theorem extractLastAtom_range (s : jsstring) (a b : Z) :
  extractLastAtom s = Some (a, b) ->
  (0 <= a <= b)%Z /\ (b < Z.of_nat (length s))%Z
  /\ (charAt s b = Some 41%N -> charAt s a = Some 40%N).
Proof.
  unfold extractLastAtom.
  remember (Z.of_nat (length s)) as len eqn:Hlen.
  remember (skipBlanksBack (S (length s)) s (len - 1)) as i eqn:Hi.
  pose proof (skipBlanksBack_le (S (length s)) s (len - 1)) as Hle.
  rewrite <- Hi in Hle.
  destruct (Z.ltb_spec i 0) as [Hneg | Hpos]; [discriminate |].
  assert (Hend : charAt s (len - 1) = Some 41%N -> i = (len - 1)%Z).
  { intros Hp. rewrite Hi. cbn [skipBlanksBack]. rewrite Hp. reflexivity. }
  destruct (charAt s i) as [c |] eqn:Hc.
  2:{ intros _. exfalso. unfold charAt in Hc.
      destruct (Z.ltb_spec i 0); [lia |]. apply nth_error_None in Hc. lia. }
  pose proof (charAt_Some _ _ _ Hc) as Hb. rewrite <- Hlen in Hb.
  destruct (N.eq_dec c 41) as [-> | Hne].
  - destruct (findOpen (S (length s)) s i 0) as [j |] eqn:Hf; [| discriminate].
    intros H. injection H as <- <-. apply findOpen_found in Hf as [Hr Ho].
    split; [lia | split; [lia | intros _; exact Ho]].
  - intros H.
    assert (H' : (let j := skipNumberBack (S (length s)) s i in
             if negb (j =? i)%Z then Some ((j + 1)%Z, i)
             else if endsWith s (js "Ans") then Some ((len - 3)%Z, (len - 1)%Z)
             else if endsWith s [960%N] then Some ((len - 1)%Z, (len - 1)%Z)
             else if endsWith s (js "e") then Some ((len - 1)%Z, (len - 1)%Z)
             else None) = Some (a, b)).
    { destruct c as [| p]; [exact H |].
      do 6 (destruct p as [p | p |]; try exact H). exfalso. apply Hne. reflexivity. }
    clear H. cbv zeta in H'.
    destruct (skipNumberBack_range (S (length s)) s i ltac:(lia)) as [Hr _].
    remember (skipNumberBack (S (length s)) s i) as j eqn:Hj.
    assert (Hnot : charAt s i = Some 41%N -> False).
    { intros Hp. rewrite Hc in Hp. injection Hp as Hp. exact (Hne Hp). }
    destruct (Z.eqb_spec j i) as [Heq | Hneq]; cbn [negb] in H'.
    + assert (Hconst : forall t, endsWith s t = true ->
                (Z.of_nat (length t) <= len)%Z)
        by (intros t Ht; apply endsWith_length in Ht; lia).
      destruct (endsWith s (js "Ans")) eqn:E1.
      { injection H' as <- <-. apply Hconst in E1.
        change (Z.of_nat (length (js "Ans"))) with 3%Z in E1.
        split; [lia | split; [lia |]].
        intros Hp. exfalso. apply Hnot. rewrite (Hend Hp). exact Hp. }
      destruct (endsWith s [960%N]) eqn:E2.
      { injection H' as <- <-. apply Hconst in E2.
        change (Z.of_nat (length [960%N])) with 1%Z in E2.
        split; [lia | split; [lia |]].
        intros Hp. exfalso. apply Hnot. rewrite (Hend Hp). exact Hp. }
      destruct (endsWith s (js "e")) eqn:E3; [| discriminate].
      injection H' as <- <-. apply Hconst in E3.
      change (Z.of_nat (length (js "e"))) with 1%Z in E3.
      split; [lia | split; [lia |]].
      intros Hp. exfalso. apply Hnot. rewrite (Hend Hp). exact Hp.
    + injection H' as <- <-.
      split; [lia | split; [lia |]]. intros Hp. exfalso. exact (Hnot Hp).
Qed.

Lemma extractLastAtom_range_witness :
  extractLastAtom (js "2*(3+(4)) ") = Some (2, 8)%Z
  /\ (0 <= 2 <= 8)%Z /\ (8 < Z.of_nat (length (js "2*(3+(4)) ")))%Z
  /\ (charAt (js "2*(3+(4)) ") 8 = Some 41%N -> charAt (js "2*(3+(4)) ") 2 = Some 40%N).
Proof.
  split; [reflexivity |].
  apply (extractLastAtom_range (js "2*(3+(4)) ") 2 8). reflexivity.
Defined.

(** ** Instances *)

Lemma toRPN2_keeps_value_order_witness :
  toRPN2 [num 1; op Plus; num 2] = Ok [num 1; num 2; op Plus]
  /\ values [num 1; num 2; op Plus] = values [num 1; op Plus; num 2].
Proof.
  split; [reflexivity |].
  apply (toRPN2_keeps_value_order [num 1; op Plus; num 2]). reflexivity.
Defined.

Lemma equals_commits_finite_results_witness :
  isFinite (ans sampleApp) = true
  /\ (length (history sampleApp) <= 18)%nat
  /\ ans (fst (equals (M := sampleMath) (sampleApp, sampleDisplay))) = 2
  /\ isFinite (ans (fst (equals (M := sampleMath) (sampleApp, sampleDisplay)))) = true.
Proof.
  split; [reflexivity | split; [vm_compute; lia | split; [vm_compute; reflexivity |]]].
  apply (equals_commits_finite_results (M := sampleMath) sampleApp sampleDisplay);
    [reflexivity | vm_compute; lia].
Defined.

Lemma equals_stores_value_witness :
  trim (expr sampleApp) <> []
  /\ evaluateExpression (M := sampleMath) (engineState sampleApp) (expr sampleApp) = Ok 2
  /\ isFinite 2 = true
  /\ resultText (snd (equals (M := sampleMath) (sampleApp, sampleDisplay))) = js "2"
  /\ ans (fst (equals (M := sampleMath) (sampleApp, sampleDisplay))) = 2.
Proof.
  split; [discriminate | split; [reflexivity | split; [reflexivity |]]].
  split; [vm_compute; reflexivity |].
  apply (equals_stores_value (M := sampleMath) sampleApp sampleDisplay 2);
    [discriminate | reflexivity | reflexivity].
Defined.

Lemma preview_result_witness :
  resultText sampleDisplay <> js "Error"
  /\ resultText (preview (M := sampleMath) sampleApp sampleDisplay) = js "2"
  /\ resultText (preview (M := sampleMath) sampleApp sampleDisplay) <> js "Error".
Proof.
  split; [discriminate | split; [vm_compute; reflexivity |]].
  apply (preview_result (M := sampleMath) sampleApp sampleDisplay). discriminate.
Defined.

Lemma toggleParen_keeps_balance_witness :
  (count_occ N.eq_dec (js "(2+3") 41%N <= count_occ N.eq_dec (js "(2+3") 40%N)%nat
  /\ expr (fst (toggleParen (M := sampleMath)
                  ({| expr := js "(2+3"; ans := 0; mode := DEG; second := false;
                      history := [] |}, sampleDisplay))) = js "(2+3)"
  /\ (count_occ N.eq_dec
        (expr (fst (toggleParen (M := sampleMath)
                      ({| expr := js "(2+3"; ans := 0; mode := DEG; second := false;
                          history := [] |}, sampleDisplay)))) 41%N
      <= count_occ N.eq_dec
           (expr (fst (toggleParen (M := sampleMath)
                         ({| expr := js "(2+3"; ans := 0; mode := DEG; second := false;
                             history := [] |}, sampleDisplay)))) 40%N)%nat.
Proof.
  split; [vm_compute; lia | split; [vm_compute; reflexivity |]].
  apply (toggleParen_keeps_balance (M := sampleMath)
           ({| expr := js "(2+3"; ans := 0; mode := DEG; second := false;
               history := [] |}, sampleDisplay)).
  vm_compute. lia.
Defined.
